(** * trade-strategy-tester: strategy engine and trade simulator

    A shallow embedding of [src/strategyEngine.js] and
    [src/tradeSimulator.js], and the properties of the signal generator,
    the slope calculator, the per-pool history and the virtual trade
    ledger.  The caller's [executeStrategy] and [handleMessage] (index.js)
    are embedded as well, with the protobuf decoder as a parameter and
    console output left out.

    Conventions of the embedding.
    - JavaScript numbers that carry prices, amounts and slopes are exact
      rationals ([Q]); rounding of IEEE doubles, infinities and NaN are
      outside this model for them.  Numbers that carry timestamps are
      integers or NaN ([number]), because [parseInt] produces NaN.
    - [null] and [undefined] of an optional field are [None].
    - [a || b] is [a] when [a] is truthy and [b] otherwise; a number is
      falsy when it is 0 (or NaN), a string when it is empty, an optional
      field when it is absent.  Objects and arrays are truthy.
    - Module-level mutable variables ([slopeHistory], [config], [trades],
      [openPosition], [tradeCounter]) are fields of explicit state records.
    - Every call of [Date.now()] is an argument of the embedded function,
      in the order of the calls in the source. *)

From Stdlib Require Import ZArith QArith Qround Qabs Lia Lqa Ascii String List Sorting.
From stdpp Require Import base option list gmap strings sorting pretty.

Local Open Scope Z_scope.

(** ** JavaScript values *)

Module Js.

(** A timestamp-like number: an integer or NaN. *)
Inductive number :=
  | NaN
  | Int (z : Z).

Definition truthyQ (q : Q) : bool := negb (Qeq_bool q 0).
Definition truthyZ (z : Z) : bool := negb (z =? 0).
Definition truthyS (s : string) : bool := negb (String.eqb s "").
Definition truthyN (n : number) : bool :=
  match n with NaN => false | Int z => truthyZ z end.

(** [a || b] on an optional field whose values have truthiness [t]. *)
Definition or {A} (t : A -> bool) (a b : option A) : option A :=
  match a with
  | Some x => if t x then Some x else b
  | None => b
  end.

(** [a || b] where [b] is an object or array literal, always present. *)
Definition orObj {A} (a : option A) (b : A) : A :=
  match a with Some x => x | None => b end.

(** [x < y] on finite numbers. *)
Definition Qltb (x y : Q) : bool := negb (Qle_bool y x).

(** The outcome of a call that may throw. *)
Inductive result (A : Type) :=
  | Ok (a : A)
  | Throw (msg : string).
Arguments Ok {A} a.
Arguments Throw {A} msg.

End Js.

(** ** Configuration ([config.trading]) *)

Inductive Strategy := StrategyA | StrategyB.

Record TradingConfig := {
  tradeSize : Q;
  slippageThresholdA : Q;
  slippageThresholdB : Q;
  slopeThreshold : Q;
  strategy : Strategy
}.

(** ** Signal generator ([generateSignal], strategyEngine.js) *)

Inductive Signal := BUY | SELL.

(** [config] is [null] until [initializeStrategy] runs; reading
    [config.trading] then throws a TypeError. *)
Definition generateSignal (config : option TradingConfig)
    (slope deltaSlope : option Q) : Js.result (option Signal) :=
  match slope, deltaSlope with
  | Some s, Some d =>
      match config with
      | None => Js.Throw "TypeError"
      | Some cfg =>
          let threshold := slopeThreshold cfg in
          if Js.Qltb d 0 && Js.Qltb s threshold then Js.Ok (Some BUY)
          else if Js.Qltb 0 d || Js.Qltb threshold s then Js.Ok (Some SELL)
          else Js.Ok None
      end
  | _, _ => Js.Ok None
  end.

(** ** Data model *)

(** One row of a price table.  The decoder may spell a field either way,
    so both spellings are kept. *)
Record Bucket := {
  SlippageBasisPoints : option Z;
  slippageBasisPoints : option Z;
  Price : option Q;
  price : option Q
}.

(** [b.SlippageBasisPoints || b.slippageBasisPoints || 0] *)
Definition bucketBp (b : Bucket) : Z :=
  default 0
    (Js.or Js.truthyZ
       (Js.or Js.truthyZ (SlippageBasisPoints b) (slippageBasisPoints b))
       (Some 0)).

(** [b.Price || b.price || null] *)
Definition bucketPrice (b : Bucket) : option Q :=
  Js.or Js.truthyQ (Js.or Js.truthyQ (Price b) (price b)) None.

(** [pool.CurrencyA]: an object with an address field, or the address
    itself as a string. *)
Inductive Currency :=
  | CurrencyStr (s : string)
  | CurrencyObj (SmartContract smartContract : option string).

Inductive Direction := AtoB | BtoA.

(** The object built by [extractPoolData].  [prices] is the JavaScript
    object used as a map from basis points to price: its keys are the
    decimal strings of integers, modelled by the integers themselves
    ([prices[10]] and [prices['10']] are the same property).  The fields
    that the consumers read behind a [||] default are optional. *)
Record PoolData := {
  poolAddress : string;
  address : option string;
  tokenA : Currency;
  tokenB : Currency;
  addressA : string;
  addressB : string;
  liquidity : Q;
  timestamp : Js.number;
  direction : Direction;
  slippageBuckets : option (list Bucket);
  prices : option (gmap Z Q);
  isWETHtoUSDT : bool;
  isUSDTtoWETH : bool
}.

(** ** Slope calculator ([calculateSlope], strategyEngine.js) *)

Definition truthyPrice (p : option Q) : bool :=
  match p with Some q => Js.truthyQ q | None => false end.

(** The callback of the two nearest-bucket reduces,
    [(closest, x) => Math.abs(key(x) - ref) < Math.abs(key(closest) - ref)
    ? x : closest], and the distance it compares. *)
Definition dist {A} (key : A -> Z) (ref : Z) (x : A) : Z := Z.abs (key x - ref).

Definition closer {A} (key : A -> Z) (ref : Z) (closest x : A) : A :=
  if Z.abs (key x - ref) <? Z.abs (key closest - ref) then x else closest.

(** [l.reduce(closer)] without an initial value, on a non-empty array;
    [None] stands for the TypeError on an empty one, which both callers
    guard against. *)
Definition reduceClosest {A} (key : A -> Z) (ref : Z) (l : list A) : option A :=
  match l with
  | [] => None
  | x0 :: rest => Some (fold_left (closer key ref) rest x0)
  end.

(** [Object.keys(prices).map(k => parseInt(k)).sort((a, b) => a - b)] *)
Definition basisPointKeys (prices : gmap Z Q) : list Z :=
  merge_sort Z.le (map fst (map_to_list prices)).

Definition calculateSlope (poolData : PoolData) : option Q :=
  let prices := Js.orObj (prices poolData) ∅ in
  let price01 := Js.or Js.truthyQ (prices !! 10) (prices !! 10) in
  let price1 := Js.or Js.truthyQ (prices !! 100) (prices !! 100) in
  let '(price01Value, price1Value) :=
    if negb (truthyPrice price01) || negb (truthyPrice price1) then
      let basisPoints := basisPointKeys prices in
      let price01Value :=
        if negb (truthyPrice price01) && (0 <? Z.of_nat (length basisPoints))
        then match reduceClosest id 10 basisPoints with
             | Some closest01 => prices !! closest01
             | None => price01
             end
        else price01 in
      let price1Value :=
        if negb (truthyPrice price1) && (0 <? Z.of_nat (length basisPoints))
        then match reduceClosest id 100 basisPoints with
             | Some closest1 => prices !! closest1
             | None => price1
             end
        else price1 in
      (price01Value, price1Value)
    else (price01, price1) in
  match price01Value, price1Value with
  | Some p01, Some p1 =>
      if negb (Js.truthyQ p01) || negb (Js.truthyQ p1) || Qeq_bool p01 0
      then None
      else Some ((p1 - p01) / p01)%Q
  | _, _ => None
  end.

(** A snapshot carrying the given flat prices map and nothing else. *)
Definition mkPrices (l : list (Z * Q)) : PoolData :=
  {| poolAddress := "0xpool"; address := None;
     tokenA := CurrencyStr ""; tokenB := CurrencyStr "";
     addressA := ""; addressB := ""; liquidity := 0;
     timestamp := Js.Int 0; direction := AtoB;
     slippageBuckets := Some [];
     prices := Some (list_to_map l);
     isWETHtoUSDT := false; isUSDTtoWETH := false |}.

(** A bucket key is nearest to [ref] when no key is closer and every key
    at the same distance is at least as large. *)
Definition nearestKey (m : gmap Z Q) (ref c : Z) : Prop :=
  is_Some (m !! c) /\
  (forall k, is_Some (m !! k) -> Z.abs (c - ref) <= Z.abs (k - ref)) /\
  (forall k, is_Some (m !! k) -> Z.abs (k - ref) = Z.abs (c - ref) -> c <= k).

(** The price at a reference: the exact bucket if present, otherwise the
    nearest bucket, otherwise nothing. *)
Definition priceAt (m : gmap Z Q) (ref : Z) (p : option Q) : Prop :=
  match m !! ref with
  | Some q => p = Some q
  | None => (m = ∅ /\ p = None) \/ (exists c, nearestKey m ref c /\ p = m !! c)
  end.

(** A reference price is unresolved when there is none or it is zero. *)
Definition unresolved (p : option Q) : Prop :=
  p = None \/ exists q, p = Some q /\ (q == 0)%Q.

(** One of the two search blocks of [calculateSlope]: the value of
    [price01Value] (or [price1Value]) when the final test is reached. *)
Definition searched (m : gmap Z Q) (ref : Z) : option Q :=
  if truthyPrice (m !! ref) then m !! ref
  else match reduceClosest id ref (basisPointKeys m) with
       | Some c => m !! c
       | None => m !! ref
       end.

(** ** Pool record extractor ([extractPoolData], strategyEngine.js) *)

(** [String.prototype.toLowerCase] on ASCII letters; other bytes are kept.
    The addresses it is compared with are ASCII, and no character outside
    ASCII lower-cases to a hexadecimal digit or to x. *)
Definition lowerAscii (c : ascii) : ascii :=
  let n := nat_of_ascii c in
  if (65 <=? n)%nat && (n <=? 90)%nat then ascii_of_nat (n + 32) else c.

Fixpoint toLowerCase (s : string) : string :=
  match s with
  | EmptyString => EmptyString
  | String c s' => String (lowerAscii c) (toLowerCase s')
  end.

(** [parseInt(s)] without a radix: leading white space is skipped, then an
    optional sign, then an optional 0x or 0X prefix that selects radix 16,
    then the longest run of digits; NaN when that run is empty.  White
    space outside ASCII is not recognised by this model. *)
Definition isWhiteSpace (c : ascii) : bool :=
  let n := nat_of_ascii c in
  ((9 <=? n)%nat && (n <=? 13)%nat) || (n =? 32)%nat.

Fixpoint trimStart (s : string) : string :=
  match s with
  | EmptyString => EmptyString
  | String c s' => if isWhiteSpace c then trimStart s' else s
  end.

Definition digitValue (radix : Z) (c : ascii) : option Z :=
  let n := Z.of_nat (nat_of_ascii c) in
  let d := if (48 <=? n) && (n <=? 57) then Some (n - 48)
           else if (97 <=? n) && (n <=? 122) then Some (n - 87)
           else if (65 <=? n) && (n <=? 90) then Some (n - 55)
           else None in
  match d with
  | Some v => if v <? radix then Some v else None
  | None => None
  end.

Fixpoint parseDigits (radix : Z) (s : string) (acc : option Z) : option Z :=
  match s with
  | EmptyString => acc
  | String c s' =>
      match digitValue radix c with
      | Some d => parseDigits radix s' (Some (default 0 acc * radix + d))
      | None => acc
      end
  end.

Definition parseInt (s : string) : Js.number :=
  let s1 := trimStart s in
  let '(sign, s2) :=
    match s1 with
    | String "-" r => (-1, r)
    | String "+" r => (1, r)
    | _ => (1, s1)
    end in
  let '(radix, s3) :=
    match s2 with
    | String "0" (String "x" r) => (16, r)
    | String "0" (String "X" r) => (16, r)
    | _ => (10, s2)
    end in
  match parseDigits radix s3 None with
  | Some n => Js.Int (sign * n)
  | None => Js.NaN
  end.

Definition USDT_ADDRESS : string := "0xdac17f958d2ee523a2206206994597c13d831ec7".
Definition WETH_ADDRESS : string := "0xc02aaa39b223fe8d0a0e5c4f27ead9083c756cc2".

Definition isSupportedToken (address : string) : bool :=
  if negb (Js.truthyS address) then false
  else
    let addr := toLowerCase address in
    String.eqb addr (toLowerCase USDT_ADDRESS)
    || String.eqb addr (toLowerCase WETH_ADDRESS).

(** The decoded record.  Every field is optional and most come in two
    spellings. *)
Module Msg.

(** [TransactionHeader.Time]: a long-integer object with [low] and
    [high] parts (or any other object, when a part is missing), a plain
    number, or a string. *)
Inductive TimeValue :=
  | TimeObj (low high : option Z)
  | TimeNum (n : Js.number)
  | TimeStr (s : string).

Record HeaderObj := { Time : option TimeValue }.

Record PoolObj := {
  SmartContract : option string;
  smartContract : option string;
  CurrencyA : option Currency;
  currencyA : option Currency;
  CurrencyB : option Currency;
  currencyB : option Currency
}.

Record LiquidityObj := {
  AmountCurrencyA : option Q;
  amountCurrencyA : option Q
}.

Record PriceTableObj := {
  AtoBPrices : option (list Bucket);
  atoBPrices : option (list Bucket);
  BtoAPrices : option (list Bucket);
  btoAPrices : option (list Bucket)
}.

Record Decoded := {
  Pool : option PoolObj;
  pool : option PoolObj;
  TransactionHeader : option HeaderObj;
  transactionHeader : option HeaderObj;
  Liquidity : option LiquidityObj;
  liquidity : option LiquidityObj;
  PoolPriceTable : option PriceTableObj;
  poolPriceTable : option PriceTableObj;
  poolAddress : option string
}.

Definition truthyTime (t : TimeValue) : bool :=
  match t with
  | TimeObj _ _ => true
  | TimeNum n => Js.truthyN n
  | TimeStr s => Js.truthyS s
  end.

End Msg.

Definition truthyCurrency (c : Currency) : bool :=
  match c with
  | CurrencyStr s => Js.truthyS s
  | CurrencyObj _ _ => true
  end.

Definition always {A} (_ : A) : bool := true.

(** [c.SmartContract || c.smartContract || (typeof c === 'string' ? c : '')] *)
Definition currencyAddress (c : Currency) : string :=
  match c with
  | CurrencyStr s => s
  | CurrencyObj a b =>
      default "" (Js.or Js.truthyS (Js.or Js.truthyS a b) (Some ""))
  end.

(** The timestamp block of [extractPoolData] (lines 67-80). *)
Definition extractTimestamp (decodedMessage : Msg.Decoded) (now : Z) : Js.number :=
  let timestamp := Js.Int now in
  let txHeader :=
    Js.or always (Msg.TransactionHeader decodedMessage)
                 (Msg.transactionHeader decodedMessage) in
  match txHeader with
  | Some h =>
      match Msg.Time h with
      | Some timeObj =>
          if Msg.truthyTime timeObj then
            match timeObj with
            | Msg.TimeObj (Some low) (Some high) =>
                Js.Int (low + high * 4294967296)
            | Msg.TimeObj _ _ => timestamp
            | Msg.TimeStr s => parseInt s
            | Msg.TimeNum n => n
            end
          else timestamp
      | None => timestamp
      end
  | None => timestamp
  end.

(** The [forEach] that fills [prices]. *)
Definition buildPrices (slippageBuckets : list Bucket) : gmap Z Q :=
  fold_left
    (fun prices bucket =>
       let bp := bucketBp bucket in
       match bucketPrice bucket with
       | Some price => <[bp := price]> prices
       | None => prices
       end)
    slippageBuckets ∅.

(** With the typed record above no step of the body can throw, so the
    [catch] branch is not reached. *)
Definition extractPoolData (decodedMessage : Msg.Decoded) (now : Z)
    : option PoolData :=
  let pool :=
    Js.orObj (Js.or always (Msg.Pool decodedMessage) (Msg.pool decodedMessage))
      (Msg.Build_PoolObj None None None None None None) in
  let currencyA :=
    Js.orObj (Js.or truthyCurrency (Msg.CurrencyA pool) (Msg.currencyA pool))
      (CurrencyObj None None) in
  let currencyB :=
    Js.orObj (Js.or truthyCurrency (Msg.CurrencyB pool) (Msg.currencyB pool))
      (CurrencyObj None None) in
  let addressA := currencyAddress currencyA in
  let addressB := currencyAddress currencyB in
  if negb (isSupportedToken addressA) || negb (isSupportedToken addressB)
  then None
  else
    let isWETHtoUSDT :=
      String.eqb (toLowerCase addressA) (toLowerCase WETH_ADDRESS)
      && String.eqb (toLowerCase addressB) (toLowerCase USDT_ADDRESS) in
    let isUSDTtoWETH :=
      String.eqb (toLowerCase addressA) (toLowerCase USDT_ADDRESS)
      && String.eqb (toLowerCase addressB) (toLowerCase WETH_ADDRESS) in
    let poolAddress :=
      default "unknown"
        (Js.or Js.truthyS
           (Js.or Js.truthyS
              (Js.or Js.truthyS (Msg.SmartContract pool) (Msg.smartContract pool))
              (Msg.poolAddress decodedMessage))
           (Some "unknown")) in
    let timestamp := extractTimestamp decodedMessage now in
    let liquidity :=
      default 0%Q
        (Js.or Js.truthyQ
           (Js.or Js.truthyQ
              (Msg.Liquidity decodedMessage ≫= Msg.AmountCurrencyA)
              (Msg.liquidity decodedMessage ≫= Msg.amountCurrencyA))
           (Some 0%Q)) in
    let priceTable :=
      Js.orObj (Js.or always (Msg.PoolPriceTable decodedMessage)
                             (Msg.poolPriceTable decodedMessage))
        (Msg.Build_PriceTableObj None None None None) in
    let atoBPrices :=
      Js.orObj (Js.or always (Msg.AtoBPrices priceTable)
                             (Msg.atoBPrices priceTable)) [] in
    let btoAPrices :=
      Js.orObj (Js.or always (Msg.BtoAPrices priceTable)
                             (Msg.btoAPrices priceTable)) [] in
    let '(direction, slippageBuckets) :=
      if isUSDTtoWETH then (BtoA, btoAPrices)
      else if isWETHtoUSDT then (AtoB, atoBPrices)
      else (AtoB, atoBPrices) in
    let prices := buildPrices slippageBuckets in
    Some {| poolAddress := poolAddress;
            address := None;
            tokenA := currencyA;
            tokenB := currencyB;
            addressA := addressA;
            addressB := addressB;
            liquidity := liquidity;
            timestamp := timestamp;
            direction := direction;
            slippageBuckets := Some slippageBuckets;
            prices := Some prices;
            isWETHtoUSDT := isWETHtoUSDT;
            isUSDTtoWETH := isUSDTtoWETH |}.

(** *** The snapshot timestamp *)

(** [TransactionHeader.Time] of the record, under either spelling of the
    header. *)
Definition timeOf (decodedMessage : Msg.Decoded) : option Msg.TimeValue :=
  Js.or always (Msg.TransactionHeader decodedMessage)
               (Msg.transactionHeader decodedMessage) ≫= Msg.Time.

(** The timestamp rule read literally: low + high * 2^32 for the split
    encoding, the number for a plain number, the integer parse for a
    string, and the wall clock when the parse fails or nothing is there. *)
Definition timestampRule (t : option Msg.TimeValue) (now : Z) : Js.number :=
  match t with
  | Some (Msg.TimeObj (Some low) (Some high)) => Js.Int (low + high * 2 ^ 32)
  | Some (Msg.TimeNum n) => n
  | Some (Msg.TimeStr s) =>
      match parseInt s with
      | Js.Int z => Js.Int z
      | Js.NaN => Js.Int now
      end
  | _ => Js.Int now
  end.

(** A WETH/USDT record whose header carries the given [Time]. *)
Definition recordAt (t : Msg.TimeValue) (buckets : list Bucket) : Msg.Decoded :=
  {| Msg.Pool :=
       Some {| Msg.SmartContract := Some "0xpool";
               Msg.smartContract := None;
               Msg.CurrencyA := Some (CurrencyObj (Some WETH_ADDRESS) None);
               Msg.currencyA := None;
               Msg.CurrencyB := Some (CurrencyObj (Some USDT_ADDRESS) None);
               Msg.currencyB := None |};
     Msg.pool := None;
     Msg.TransactionHeader := Some {| Msg.Time := Some t |};
     Msg.transactionHeader := None;
     Msg.Liquidity := None;
     Msg.liquidity := None;
     Msg.PoolPriceTable :=
       Some {| Msg.AtoBPrices := Some buckets; Msg.atoBPrices := None;
               Msg.BtoAPrices := None; Msg.btoAPrices := None |};
     Msg.poolPriceTable := None;
     Msg.poolAddress := None |}.

(** ** History tracker ([calculateDeltaSlope], [updateHistory]) *)

Module SlopeRecord.
Record t := { timestamp : Js.number; slope : Q; deltaSlope : Q }.
End SlopeRecord.

Definition maxHistorySize : nat := 100.

(** The engine's module state: [slopeHistory] and [config]
    ([priceHistory] is never read or written). *)
Record Engine := {
  slopeHistory : gmap string (list SlopeRecord.t);
  config : option TradingConfig
}.

Definition initialEngine : Engine := {| slopeHistory := ∅; config := None |}.

Definition initializeStrategy (cfg : TradingConfig) (e : Engine) : Engine :=
  {| slopeHistory := slopeHistory e; config := Some cfg |}.

Definition calculateDeltaSlope (poolAddress : string) (currentSlope : Q)
    (slopeHistory : gmap string (list SlopeRecord.t)) : option Q :=
  let history := Js.orObj (slopeHistory !! poolAddress) [] in
  if (length history =? 0)%nat then None
  else
    match history !! (length history - 1)%nat with
    | Some r => Some (currentSlope - SlopeRecord.slope r)%Q
    | None => None
    end.

(** The record that [updateHistory] pushes on a history. *)
Definition pushedRecord (poolData : PoolData) (slope : Q) (now : Z)
    (history : list SlopeRecord.t) : SlopeRecord.t :=
  let timestamp :=
    default (Js.Int now)
      (Js.or Js.truthyN (Some (timestamp poolData)) (Some (Js.Int now))) in
  let deltaSlope :=
    if (0 <? length history)%nat then
      match history !! (length history - 1)%nat with
      | Some r => (slope - SlopeRecord.slope r)%Q
      | None => 0%Q
      end
    else 0%Q in
  {| SlopeRecord.timestamp := timestamp;
     SlopeRecord.slope := slope;
     SlopeRecord.deltaSlope := deltaSlope |}.

Definition updateHistory (poolData : PoolData) (slope : Q) (now : Z)
    (slopeHistory : gmap string (list SlopeRecord.t))
    : gmap string (list SlopeRecord.t) :=
  let poolAddress := poolAddress poolData in
  let slopeHistory :=
    match slopeHistory !! poolAddress with
    | Some _ => slopeHistory
    | None => <[poolAddress := []]> slopeHistory
    end in
  let history := Js.orObj (slopeHistory !! poolAddress) [] in
  let history := history ++ [pushedRecord poolData slope now history] in
  let history :=
    if (maxHistorySize <? length history)%nat then tail history else history in
  <[poolAddress := history]> slopeHistory.

(** ** The pipeline ([processPoolData]) *)

Record StrategyResult := {
  res_poolData : PoolData;
  res_slope : option Q;
  res_deltaSlope : option Q;
  res_signal : option Signal
}.

(** [now] is the clock read by [extractPoolData], [now'] the one read by
    [updateHistory]. *)
Definition processPoolData (decodedMessage : Msg.Decoded) (now now' : Z)
    (e : Engine) : Js.result (option StrategyResult) * Engine :=
  match extractPoolData decodedMessage now with
  | None => (Js.Ok None, e)
  | Some poolData =>
      match calculateSlope poolData with
      | None =>
          (Js.Ok (Some {| res_poolData := poolData; res_slope := None;
                          res_deltaSlope := None; res_signal := None |}), e)
      | Some slope =>
          let deltaSlope :=
            calculateDeltaSlope (poolAddress poolData) slope (slopeHistory e) in
          let e' :=
            {| slopeHistory := updateHistory poolData slope now' (slopeHistory e);
               config := config e |} in
          match generateSignal (config e') (Some slope) deltaSlope with
          | Js.Throw msg => (Js.Throw msg, e')
          | Js.Ok signal =>
              (Js.Ok (Some {| res_poolData := poolData;
                              res_slope := Some slope;
                              res_deltaSlope := deltaSlope;
                              res_signal := signal |}), e')
          end
      end
  end.

(** *** Sequences of history updates *)

Definition historyOf (sh : gmap string (list SlopeRecord.t)) (p : string)
    : list SlopeRecord.t :=
  Js.orObj (sh !! p) [].

(** The push followed by the conditional [shift]. *)
Definition pushShift (h : list SlopeRecord.t) (r : SlopeRecord.t)
    : list SlopeRecord.t :=
  if (maxHistorySize <? length (h ++ [r]))%nat then tail (h ++ [r]) else h ++ [r].

(** The last [n] elements of a list, in order. *)
Definition lastN {A} (n : nat) (l : list A) : list A :=
  drop (length l - n)%nat l.

Definition Update : Type := PoolData * Q * Z.

Definition applyUpdate (sh : gmap string (list SlopeRecord.t)) (u : Update)
    : gmap string (list SlopeRecord.t) :=
  let '(pd, s, now) := u in updateHistory pd s now sh.

(** A sequence of [updateHistory] calls, for any pools. *)
Definition runUpdates (us : list Update)
    (sh : gmap string (list SlopeRecord.t)) :=
  fold_left applyUpdate us sh.

(** The records appended to the history of pool [p] along that sequence,
    in arrival order. *)
Fixpoint appendedTo (p : string) (us : list Update)
    (sh : gmap string (list SlopeRecord.t)) : list SlopeRecord.t :=
  match us with
  | [] => []
  | (pd, s, now) :: us' =>
      (if String.eqb (poolAddress pd) p
       then [pushedRecord pd s now (historyOf sh p)] else [])
      ++ appendedTo p us' (updateHistory pd s now sh)
  end.

(** ** Execution price ([getExecutionPrice], tradeSimulator.js) *)

(** [Math.round]: the nearest integer, a half rounding up. *)
Definition Math_round (x : Q) : Z := Qfloor (x + (1 # 2)).

(** [direction] is 'BUY' or 'SELL'; the body never reads it, nor
    [amount]. *)
Definition getExecutionPrice (poolData : PoolData) (amount slippage : Q)
    (direction : Signal) : option Q :=
  let slippageBasisPoints := Math_round (slippage * 10000) in
  let buckets := Js.orObj (slippageBuckets poolData) [] in
  if (length buckets =? 0)%nat then
    let prices := Js.orObj (prices poolData) ∅ in
    if (0 <? size prices)%nat then
      Js.or Js.truthyQ
        (Js.or Js.truthyQ (prices !! slippageBasisPoints)
                          (prices !! slippageBasisPoints))
        None
    else None
  else
    let targetBucket :=
      List.find (fun b => bucketBp b =? slippageBasisPoints) buckets in
    let targetBucket :=
      match targetBucket with
      | Some b => Some b
      | None => reduceClosest bucketBp slippageBasisPoints buckets
      end in
    match targetBucket with
    | Some b => bucketPrice b
    | None => None
    end.

Definition bucket (bp : Z) (p : Q) : Bucket :=
  {| SlippageBasisPoints := Some bp; slippageBasisPoints := None;
     Price := Some p; price := None |}.

Definition snapshot (buckets : list Bucket) : PoolData :=
  {| poolAddress := "0xpool"; address := None;
     tokenA := CurrencyObj (Some WETH_ADDRESS) None;
     tokenB := CurrencyObj (Some USDT_ADDRESS) None;
     addressA := WETH_ADDRESS; addressB := USDT_ADDRESS; liquidity := 0;
     timestamp := Js.Int 1700000000000; direction := AtoB;
     slippageBuckets := Some buckets;
     prices := Some (buildPrices buckets);
     isWETHtoUSDT := true; isUSDTtoWETH := false |}.

(** ** Trade ledger ([executeBuy], [executeSell], [calculatePnL],
       [resetTrades], tradeSimulator.js) *)

Module Trade.
Record t := {
  id : string;
  type : Signal;
  amount : Q;
  entryPrice : Q;
  exitPrice : option Q;
  entryTimestamp : Z;
  exitTimestamp : option Z;
  poolAddress : string;
  strategy : Strategy;
  slippage : Q
}.
End Trade.

(** Trade objects are mutable and shared between the [trades] array and
    [openPosition], so they live in a store: [heap] holds every trade
    object ever created, a reference is its index.  [trades] and
    [openPosition] hold references. *)
Record Ledger := {
  heap : list Trade.t;
  trades : list nat;
  openPosition : option nat;
  tradeCounter : Z
}.

Definition initialLedger : Ledger :=
  {| heap := []; trades := []; openPosition := None; tradeCounter := 0 |}.

(** [`trade-${Date.now()}-${++tradeCounter}`] *)
Definition generateTradeId (now : Z) (L : Ledger) : string * Ledger :=
  let counter := tradeCounter L + 1 in
  ("trade-" +:+ pretty now +:+ "-" +:+ pretty counter,
   {| heap := heap L; trades := trades L; openPosition := openPosition L;
      tradeCounter := counter |}).

(** Returns the reference of the new trade.  [now] and [now'] are the two
    clock readings, for the id and for [entryTimestamp]. *)
Definition executeBuy (poolData : PoolData) (amount slippage : Q)
    (strategy : Strategy) (now now' : Z) (L : Ledger)
    : Js.result nat * Ledger :=
  match getExecutionPrice poolData amount slippage BUY with
  | Some price =>
      if negb (Js.truthyQ price)
      then (Js.Throw "Unable to determine execution price for BUY", L)
      else
        let '(id, L1) := generateTradeId now L in
        let trade :=
          {| Trade.id := id;
             Trade.type := BUY;
             Trade.amount := amount;
             Trade.entryPrice := price;
             Trade.exitPrice := None;
             Trade.entryTimestamp := now';
             Trade.exitTimestamp := None;
             Trade.poolAddress :=
               default "unknown"
                 (Js.or Js.truthyS
                    (Js.or Js.truthyS (Some (poolAddress poolData))
                                      (address poolData))
                    (Some "unknown"));
             Trade.strategy := strategy;
             Trade.slippage := slippage |} in
        let ref := length (heap L1) in
        (Js.Ok ref,
         {| heap := heap L1 ++ [trade];
            trades := trades L1 ++ [ref];
            openPosition := Some ref;
            tradeCounter := tradeCounter L1 |})
  | None => (Js.Throw "Unable to determine execution price for BUY", L)
  end.

Definition closeTrade (price : Q) (now : Z) (t : Trade.t) : Trade.t :=
  {| Trade.id := Trade.id t;
     Trade.type := Trade.type t;
     Trade.amount := Trade.amount t;
     Trade.entryPrice := Trade.entryPrice t;
     Trade.exitPrice := Some price;
     Trade.entryTimestamp := Trade.entryTimestamp t;
     Trade.exitTimestamp := Some now;
     Trade.poolAddress := Trade.poolAddress t;
     Trade.strategy := Trade.strategy t;
     Trade.slippage := Trade.slippage t |}.

(** Returns null, or a copy of the closed trade; the open trade object is
    closed in place.  A reference outside the store cannot arise from the
    operations of the module and is reported as a TypeError. *)
Definition executeSell (poolData : PoolData) (amount slippage : Q)
    (strategy : Strategy) (now now' : Z) (L : Ledger)
    : Js.result (option Trade.t) * Ledger :=
  match openPosition L with
  | None => (Js.Ok None, L)
  | Some ref =>
      match getExecutionPrice poolData amount slippage SELL with
      | Some price =>
          if negb (Js.truthyQ price)
          then (Js.Throw "Unable to determine execution price for SELL", L)
          else
            match heap L !! ref with
            | Some t =>
                let closed := closeTrade price now t in
                let trade := closeTrade price now' closed in
                (Js.Ok (Some trade),
                 {| heap := <[ref := closed]> (heap L);
                    trades := trades L;
                    openPosition := None;
                    tradeCounter := tradeCounter L |})
            | None => (Js.Throw "TypeError", L)
            end
      | None => (Js.Throw "Unable to determine execution price for SELL", L)
      end
  end.

Definition calculatePnL (trade : Trade.t) : Q :=
  if negb (truthyPrice (Trade.exitPrice trade)) then 0%Q
  else
    let exitPrice := default 0%Q (Trade.exitPrice trade) in
    match Trade.type trade with
    | BUY => ((exitPrice - Trade.entryPrice trade) * Trade.amount trade)%Q
    | SELL => ((Trade.entryPrice trade - exitPrice) * Trade.amount trade)%Q
    end.

(** [trades = []] makes a new array; the old trade objects stay in the
    store, unreferenced. *)
Definition resetTrades (L : Ledger) : Ledger :=
  {| heap := heap L; trades := []; openPosition := None; tradeCounter := 0 |}.

(** The trade objects of the ledger, in order. *)
Definition ledgerTrades (L : Ledger) : list Trade.t :=
  omap (fun ref => heap L !! ref) (trades L).

(** *** Sequences of ledger operations *)

Inductive Op :=
  | OpBuy (poolData : PoolData) (amount slippage : Q) (strategy : Strategy)
          (now now' : Z)
  | OpSell (poolData : PoolData) (amount slippage : Q) (strategy : Strategy)
           (now now' : Z)
  | OpReset.

(** The ledger after one operation, whether it returned or threw. *)
Definition step (L : Ledger) (op : Op) : Ledger :=
  match op with
  | OpBuy pd amount slippage strategy now now' =>
      snd (executeBuy pd amount slippage strategy now now' L)
  | OpSell pd amount slippage strategy now now' =>
      snd (executeSell pd amount slippage strategy now now' L)
  | OpReset => resetTrades L
  end.

Definition run (ops : list Op) : Ledger := fold_left step ops initialLedger.

Definition openRecorded (L : Ledger) : Prop :=
  forall ref, openPosition L = Some ref ->
    ref ∈ trades L /\
    exists t, heap L !! ref = Some t /\ Trade.exitPrice t = None.

(** ** Concrete inputs *)

(** The defaults of the configuration module. *)
Definition defaultConfig : TradingConfig :=
  {| tradeSize := 1;
     slippageThresholdA := 1 # 100;
     slippageThresholdB := 5 # 1000;
     slopeThreshold := - (1 # 1000);
     strategy := StrategyA |}.

Definition ledgerWithOpen : Ledger :=
  snd (executeBuy (snapshot [bucket 100 100]) 1 (1 # 100) StrategyA 1 2
         initialLedger).

Definition otherPool : PoolData :=
  {| poolAddress := "0xother"; address := None;
     tokenA := CurrencyObj (Some WETH_ADDRESS) None;
     tokenB := CurrencyObj (Some USDT_ADDRESS) None;
     addressA := WETH_ADDRESS; addressB := USDT_ADDRESS; liquidity := 0;
     timestamp := Js.Int 1700000000001; direction := AtoB;
     slippageBuckets := Some [bucket 100 102];
     prices := Some (buildPrices [bucket 100 102]);
     isWETHtoUSDT := true; isUSDTtoWETH := false |}.

Definition observation (p100 : Q) : Msg.Decoded :=
  recordAt (Msg.TimeNum (Js.Int 1700000000000)) [bucket 10 100; bucket 100 p100].

Definition someOps : list Op :=
  [ OpBuy (snapshot [bucket 100 100]) 1 (1 # 100) StrategyA 1 2;
    OpSell (snapshot [bucket 100 105]) 1 (1 # 100) StrategyA 3 4;
    OpSell (snapshot [bucket 100 105]) 1 (1 # 100) StrategyA 5 6;
    OpBuy otherPool 1 (1 # 100) StrategyA 7 8;
    OpBuy (snapshot []) 1 (1 # 100) StrategyA 9 10;
    OpBuy (snapshot [bucket 100 100]) 1 (1 # 100) StrategyA 11 12 ].

(** ** Remaining functions of strategyEngine.js *)

(** [getSlippageThreshold] reads the engine's [config], which is [null]
    before [initializeStrategy]. *)
Definition getSlippageThreshold (strategy : Strategy) (e : Engine)
    : Js.result Q :=
  match config e with
  | None => Js.Throw "TypeError"
  | Some cfg =>
      match strategy with
      | StrategyB => Js.Ok (slippageThresholdB cfg)
      | StrategyA => Js.Ok (slippageThresholdA cfg)
      end
  end.

Definition getChunkCount : nat := 2.

(** ** Performance summary ([getPerformanceSummary], tradeSimulator.js) *)

Module Summary.
Record t := {
  totalTrades : nat;
  closedTrades : nat;
  openPosition : nat;
  totalPnL : Q;
  winRate : Q;
  averageExecutionPrice : Q;
  trades : list nat
}.
End Summary.

(** [t.exitPrice !== null] *)
Definition isClosed (t : Trade.t) : bool :=
  match Trade.exitPrice t with Some _ => true | None => false end.

(** [n / m] on two array lengths. *)
Definition ratio (n m : nat) : Q :=
  (inject_Z (Z.of_nat n) / inject_Z (Z.of_nat m))%Q.

Definition getPerformanceSummary (L : Ledger) : Summary.t :=
  let closedTrades := List.filter isClosed (ledgerTrades L) in
  let totalPnL :=
    fold_left (fun sum trade => (sum + calculatePnL trade)%Q) closedTrades 0%Q in
  let winRate :=
    if (0 <? length closedTrades)%nat
    then ratio (length (List.filter (fun t => Js.Qltb 0 (calculatePnL t))
                          closedTrades))
               (length closedTrades)
    else 0%Q in
  let avgExecutionPrice :=
    if (0 <? length closedTrades)%nat
    then (fold_left (fun sum t => (sum + Trade.entryPrice t)%Q) closedTrades 0%Q
          / inject_Z (Z.of_nat (length closedTrades)))%Q
    else 0%Q in
  {| Summary.totalTrades := length (trades L);
     Summary.closedTrades := length closedTrades;
     Summary.openPosition := match openPosition L with Some _ => 1 | None => 0 end;
     Summary.totalPnL := totalPnL;
     Summary.winRate := winRate;
     Summary.averageExecutionPrice := avgExecutionPrice;
     Summary.trades := trades L |}.

(** ** The caller ([executeStrategy], [handleMessage], index.js) *)

(** The [for] loops of strategy B: [n] more calls, the [i]-th call reading
    the clock at [2 * i] and [2 * i + 1].  A throw leaves the loop. *)
Fixpoint buyChunks (n i : nat) (poolData : PoolData) (chunkSize slippage : Q)
    (strategy : Strategy) (clock : nat -> Z) (L : Ledger)
    : Js.result unit * Ledger :=
  match n with
  | O => (Js.Ok tt, L)
  | S n' =>
      match executeBuy poolData chunkSize slippage strategy
              (clock (2 * i)%nat) (clock (2 * i + 1)%nat) L with
      | (Js.Ok _, L') =>
          buyChunks n' (S i) poolData chunkSize slippage strategy clock L'
      | (Js.Throw msg, L') => (Js.Throw msg, L')
      end
  end.

Fixpoint sellChunks (n i : nat) (poolData : PoolData) (chunkSize slippage : Q)
    (strategy : Strategy) (clock : nat -> Z) (L : Ledger)
    : Js.result unit * Ledger :=
  match n with
  | O => (Js.Ok tt, L)
  | S n' =>
      match executeSell poolData chunkSize slippage strategy
              (clock (2 * i)%nat) (clock (2 * i + 1)%nat) L with
      | (Js.Ok _, L') =>
          sellChunks n' (S i) poolData chunkSize slippage strategy clock L'
      | (Js.Throw msg, L') => (Js.Throw msg, L')
      end
  end.

(** The value of a call is only logged. *)
Definition logged {A} (r : Js.result A * Ledger) : Js.result unit * Ledger :=
  match r with
  | (Js.Ok _, L) => (Js.Ok tt, L)
  | (Js.Throw msg, L) => (Js.Throw msg, L)
  end.

(** [appConfig] is [config.trading] of the configuration module, which the
    caller reads directly; the slippage threshold comes from the engine's
    copy, and is read before the [try].  Anything thrown inside the [try]
    is caught and logged.  [clock] gives the successive readings of
    [Date.now()]. *)
Definition executeStrategy (appConfig : TradingConfig) (signal : Signal)
    (poolData : PoolData) (slope deltaSlope : option Q) (clock : nat -> Z)
    (e : Engine) (L : Ledger) : Js.result unit * Ledger :=
  let strategy := strategy appConfig in
  match getSlippageThreshold strategy e with
  | Js.Throw msg => (Js.Throw msg, L)
  | Js.Ok slippage =>
      let tradeSize := tradeSize appConfig in
      let body : Js.result unit * Ledger :=
        match signal, strategy with
        | BUY, StrategyA =>
            logged (executeBuy poolData tradeSize slippage strategy
                      (clock 0%nat) (clock 1%nat) L)
        | BUY, StrategyB =>
            let chunkCount := getChunkCount in
            let chunkSize := (tradeSize / inject_Z (Z.of_nat chunkCount))%Q in
            buyChunks chunkCount 0 poolData chunkSize slippage strategy clock L
        | SELL, StrategyA =>
            logged (executeSell poolData tradeSize slippage strategy
                      (clock 0%nat) (clock 1%nat) L)
        | SELL, StrategyB =>
            let chunkCount := getChunkCount in
            let chunkSize := (tradeSize / inject_Z (Z.of_nat chunkCount))%Q in
            sellChunks chunkCount 0 poolData chunkSize slippage strategy clock L
        end in
      (Js.Ok tt, snd body)
  end.

(** The application state that a message can change. *)
Record App := {
  engine : Engine;
  ledger : Ledger;
  messageCount : Z
}.

Section HandleMessage.
Variable Buffer : Type.
(** [protobufDecoder.decodeMessage], which lies outside these modules. *)
Variable decodeMessage : Buffer -> Js.result Msg.Decoded.

(** [handleMessage] after the console output is left out: every throw is
    caught by the outer [try].  [now] and [now'] are the clock readings of
    [processPoolData], [clock] those of [executeStrategy]. *)
Definition handleMessage (appConfig : TradingConfig) (value : Buffer)
    (now now' : Z) (clock : nat -> Z) (a : App) : App :=
  let count := messageCount a + 1 in
  match decodeMessage value with
  | Js.Throw _ =>
      {| engine := engine a; ledger := ledger a; messageCount := count |}
  | Js.Ok decodedMessage =>
      match processPoolData decodedMessage now now' (engine a) with
      | (Js.Throw _, e') =>
          {| engine := e'; ledger := ledger a; messageCount := count |}
      | (Js.Ok None, e') =>
          {| engine := e'; ledger := ledger a; messageCount := count |}
      | (Js.Ok (Some r), e') =>
          match res_signal r with
          | None =>
              {| engine := e'; ledger := ledger a; messageCount := count |}
          | Some signal =>
              {| engine := e';
                 ledger :=
                   snd (executeStrategy appConfig signal (res_poolData r)
                          (res_slope r) (res_deltaSlope r) clock e' (ledger a));
                 messageCount := count |}
          end
      end
  end.
End HandleMessage.

(** ** Vocabulary of the further properties *)

(** What every trade object of a ledger satisfies once it is recorded. *)
Definition soundTrade (t : Trade.t) : Prop :=
  Trade.type t = BUY /\
  ~ (Trade.entryPrice t == 0)%Q /\
  forall x, Trade.exitPrice t = Some x -> ~ (x == 0)%Q.

Definition wellFormed (L : Ledger) : Prop :=
  tradeCounter L = Z.of_nat (length (trades L)) /\
  NoDup (trades L) /\
  (forall ref, ref ∈ trades L ->
     exists t, heap L !! ref = Some t /\ soundTrade t) /\
  openRecorded L.

Definition isReset (op : Op) : bool :=
  match op with OpReset => true | _ => false end.

(** The trades of the ledger that have no exit price. *)
Definition unclosedTrades (L : Ledger) : list Trade.t :=
  List.filter (fun t => negb (isClosed t)) (ledgerTrades L).

(** The price table of the record, and its two directions, as
    [extractPoolData] reads them. *)
Definition priceTableOf (decodedMessage : Msg.Decoded) : Msg.PriceTableObj :=
  Js.orObj (Js.or always (Msg.PoolPriceTable decodedMessage)
                         (Msg.poolPriceTable decodedMessage))
    (Msg.Build_PriceTableObj None None None None).

Definition atoBOf (decodedMessage : Msg.Decoded) : list Bucket :=
  Js.orObj (Js.or always (Msg.AtoBPrices (priceTableOf decodedMessage))
                         (Msg.atoBPrices (priceTableOf decodedMessage))) [].

Definition btoAOf (decodedMessage : Msg.Decoded) : list Bucket :=
  Js.orObj (Js.or always (Msg.BtoAPrices (priceTableOf decodedMessage))
                         (Msg.btoAPrices (priceTableOf decodedMessage))) [].

(** The price of the last bucket of a table that has basis points [k] and
    a price. *)
Definition lastPriced (k : Z) (buckets : list Bucket) : option Q :=
  last (omap (fun b => if bucketBp b =? k then bucketPrice b else None)
          buckets).

(** A string without the character [-]. *)
Fixpoint dashFree (s : string) : bool :=
  match s with
  | EmptyString => true
  | String c s' => negb (Ascii.eqb c "-") && dashFree s'
  end.

(** The id that [generateTradeId] forms from a clock reading and a
    counter value. *)
Definition tradeId (now counter : Z) : string :=
  "trade-" +:+ pretty now +:+ "-" +:+ pretty counter.

(** The [i]-th recorded trade carries the counter value [i + 1] in its
    id. *)
Definition idsIndexed (L : Ledger) : Prop :=
  forall i ref, trades L !! i = Some ref ->
    exists t now, heap L !! ref = Some t /\
                  Trade.id t = tradeId now (Z.of_nat i + 1).

(** Two ledgers that differ only by trade objects left unreferenced at the
    front of the store of the first. *)
Definition shifted (junk : list Trade.t) (L L' : Ledger) : Prop :=
  heap L = junk ++ heap L' /\
  trades L = map (Nat.add (length junk)) (trades L') /\
  openPosition L = Nat.add (length junk) <$> openPosition L' /\
  tradeCounter L = tradeCounter L'.

(** The trade object that holds the open position, if any. *)
Definition openTrade (L : Ledger) : option Trade.t :=
  openPosition L ≫= fun ref => heap L !! ref.

(** ** Further concrete inputs *)

Definition twoBuys : Ledger :=
  fold_left step
    [ OpBuy (snapshot [bucket 100 100]) 1 (1 # 100) StrategyA 1 2;
      OpBuy otherPool 1 (1 # 100) StrategyA 3 4 ] initialLedger.

(** The configuration with strategy B selected. *)
Definition configB : TradingConfig :=
  {| tradeSize := 1;
     slippageThresholdA := 1 # 100;
     slippageThresholdB := 5 # 1000;
     slopeThreshold := - (1 # 1000);
     strategy := StrategyB |}.

Definition engineB : Engine := initializeStrategy configB initialEngine.

Definition clock0 (i : nat) : Z := 1700000000000 + Z.of_nat i.

(** An engine that has seen one observation without being initialised. *)
Definition engineSeen : Engine :=
  snd (processPoolData (observation 99) 1 2 initialEngine).

(** An application state right after start-up. *)
Definition freshApp : App :=
  {| engine := initializeStrategy defaultConfig initialEngine;
     ledger := initialLedger;
     messageCount := 0 |}.

(** A decoder that hands its input through. *)
Definition decodeId (m : Msg.Decoded) : Js.result Msg.Decoded := Js.Ok m.

Definition seenApp : App :=
  handleMessage Msg.Decoded decodeId defaultConfig (observation 99) 1 2 clock0
    freshApp.

(** * Properties *)

(** ** Truthiness and comparison *)

Lemma Qltb_lt x y : Js.Qltb x y = true <-> (x < y)%Q.
Proof.
  unfold Js.Qltb. rewrite negb_true_iff. split.
  - intros H. apply Qnot_le_lt. intros Hle.
    apply Qle_bool_iff in Hle. congruence.
  - intros H. destruct (Qle_bool y x) eqn:E; [|reflexivity].
    apply Qle_bool_iff in E. exfalso. apply (Qlt_not_le _ _ H E).
Qed.

Lemma truthyQ_true q : Js.truthyQ q = true <-> ~ (q == 0)%Q.
Proof.
  unfold Js.truthyQ. rewrite negb_true_iff. split.
  - intros H E. apply Qeq_bool_iff in E. congruence.
  - intros H. destruct (Qeq_bool q 0) eqn:E; [|reflexivity].
    apply Qeq_bool_iff in E. contradiction.
Qed.

Lemma truthyQ_false q : Js.truthyQ q = false <-> (q == 0)%Q.
Proof.
  unfold Js.truthyQ. rewrite negb_false_iff. apply Qeq_bool_iff.
Qed.

(** ** Signal generator *)

(** C1. [generateSignal] returns null when slope or deltaSlope is null;
    otherwise BUY when deltaSlope < 0 and slope < threshold; otherwise SELL
    when deltaSlope > 0 or slope > threshold; otherwise null.  When slope
    equals the threshold and deltaSlope is 0 the result is null. *)
Theorem generateSignal_spec (cfg : TradingConfig) (slope deltaSlope : option Q) :
  let th := slopeThreshold cfg in
  let r := generateSignal (Some cfg) slope deltaSlope in
  ((slope = None \/ deltaSlope = None) -> r = Js.Ok None) /\
  (forall s d, slope = Some s -> deltaSlope = Some d ->
     ((d < 0 /\ s < th)%Q -> r = Js.Ok (Some BUY)) /\
     (~ (d < 0 /\ s < th)%Q -> (0 < d \/ th < s)%Q -> r = Js.Ok (Some SELL)) /\
     (~ (d < 0 /\ s < th)%Q -> ~ (0 < d \/ th < s)%Q -> r = Js.Ok None) /\
     ((s == th)%Q -> (d == 0)%Q -> r = Js.Ok None)).
Proof.
  intros th r. split.
  - intros [-> | ->]; subst r; simpl; [reflexivity|].
    destruct slope; reflexivity.
  - intros s d -> ->. subst r th. simpl.
    destruct (Js.Qltb d 0) eqn:E1, (Js.Qltb s (slopeThreshold cfg)) eqn:E2,
             (Js.Qltb 0 d) eqn:E3, (Js.Qltb (slopeThreshold cfg) s) eqn:E4;
      simpl;
      repeat match goal with
      | H : Js.Qltb _ _ = true |- _ => apply Qltb_lt in H
      | H : Js.Qltb _ _ = false |- _ =>
          apply not_true_iff_false in H; rewrite Qltb_lt in H
      end;
      repeat split; intros; try reflexivity; exfalso;
      try tauto; try lra.
Qed.

(** ** Slope calculator *)

Example slope_exact :
  calculateSlope (mkPrices [(10, 100%Q); (100, 99%Q)]) = Some ((99 - 100) / 100)%Q.
Proof. vm_compute. reflexivity. Qed.

Example slope_nearest_tie :
  calculateSlope (mkPrices [(5, 50%Q); (15, 60%Q); (100, 99%Q)]) = Some ((99 - 50) / 50)%Q.
Proof. vm_compute. reflexivity. Qed.

Example slope_zero100 :
  calculateSlope (mkPrices [(10, 100%Q); (100, 0%Q)]) = None.
Proof. vm_compute. reflexivity. Qed.

(** *** The nearest-bucket search *)

Section Closest.
Context {A : Type} (key : A -> Z) (ref : Z).
Local Abbreviation dist := (dist key ref).
Local Abbreviation closer := (closer key ref).

(** The accumulator of the reduce sits in the part of the array scanned
    so far, strictly closer than everything before it and at least as
    close as everything after it. *)
Lemma fold_closer_split (rest pre post : list A) (c : A) :
  (forall x, x ∈ pre -> dist c < dist x) ->
  (forall x, x ∈ post -> dist c <= dist x) ->
  exists pre' post',
    pre ++ c :: post ++ rest = pre' ++ fold_left closer rest c :: post' /\
    (forall x, x ∈ pre' -> dist (fold_left closer rest c) < dist x) /\
    (forall x, x ∈ post' -> dist (fold_left closer rest c) <= dist x).
Proof.
  revert pre post c.
  induction rest as [|x rest IH]; intros pre post c Hpre Hpost; simpl.
  - exists pre, post. rewrite app_nil_r. auto.
  - destruct (Z.ltb_spec (dist x) (dist c)) as [Hlt|Hge].
    + assert (closer c x = x) as ->.
      { unfold closer. fold (dist x) (dist c).
        apply Z.ltb_lt in Hlt. rewrite Hlt. reflexivity. }
      destruct (IH (pre ++ c :: post) [] x) as (pre' & post' & E & H1 & H2).
      * intros y Hy. apply elem_of_app in Hy as [Hy|Hy].
        -- specialize (Hpre y Hy). lia.
        -- apply elem_of_cons in Hy as [->|Hy]; [lia|].
           specialize (Hpost y Hy). lia.
      * intros y Hy. inversion Hy.
      * exists pre', post'. split; [|auto].
        rewrite <- E. simpl. rewrite <- app_assoc. reflexivity.
    + assert (closer c x = c) as ->.
      { unfold closer. fold (dist x) (dist c).
        apply Z.ltb_ge in Hge. rewrite Hge. reflexivity. }
      destruct (IH pre (post ++ [x]) c) as (pre' & post' & E & H1 & H2).
      * exact Hpre.
      * intros y Hy. apply elem_of_app in Hy as [Hy|Hy]; [auto|].
        apply list_elem_of_singleton in Hy as ->. lia.
      * exists pre', post'. split; [|auto].
        rewrite <- E. rewrite <- app_assoc. reflexivity.
Qed.

Lemma reduceClosest_split (l : list A) (c : A) :
  reduceClosest key ref l = Some c ->
  exists pre post,
    l = pre ++ c :: post /\
    (forall x, x ∈ pre -> dist c < dist x) /\
    (forall x, x ∈ post -> dist c <= dist x).
Proof.
  destruct l as [|x0 rest]; [discriminate|].
  simpl. intros [= <-].
  destruct (fold_closer_split rest [] [] x0) as (pre & post & E & H1 & H2).
  - intros y Hy. inversion Hy.
  - intros y Hy. inversion Hy.
  - exists pre, post. simpl in E. auto.
Qed.

Lemma reduceClosest_nonempty (l : list A) :
  l <> [] -> is_Some (reduceClosest key ref l).
Proof. destruct l; [congruence|]. intros _. simpl. eauto. Qed.

Lemma reduceClosest_min (l : list A) (c : A) :
  reduceClosest key ref l = Some c ->
  c ∈ l /\ forall x, x ∈ l -> dist c <= dist x.
Proof.
  intros H. apply reduceClosest_split in H as (pre & post & -> & H1 & H2).
  split.
  - apply elem_of_app. right. apply elem_of_cons. auto.
  - intros x Hx. apply elem_of_app in Hx as [Hx|Hx].
    + specialize (H1 x Hx). lia.
    + apply elem_of_cons in Hx as [->|Hx]; [lia|auto].
Qed.
End Closest.

(** *** What [calculateSlope] computes *)

Lemma or_same {A} (t : A -> bool) (a : option A) : Js.or t a a = a.
Proof. destruct a as [x|]; simpl; [destruct (t x)|]; reflexivity. Qed.

Lemma elem_of_basisPointKeys (m : gmap Z Q) (k : Z) :
  k ∈ basisPointKeys m <-> is_Some (m !! k).
Proof.
  unfold basisPointKeys. rewrite merge_sort_Permutation.
  rewrite list_elem_of_In, in_map_iff. split.
  - intros ([k' q] & <- & Hin). apply list_elem_of_In in Hin.
    apply elem_of_map_to_list in Hin. simpl. eauto.
  - intros [q Hq]. exists (k, q). split; [reflexivity|].
    apply list_elem_of_In. apply elem_of_map_to_list. exact Hq.
Qed.

Lemma basisPointKeys_sorted (m : gmap Z Q) :
  StronglySorted Z.le (basisPointKeys m).
Proof. apply StronglySorted_merge_sort; apply _. Qed.

Lemma basisPointKeys_nil (m : gmap Z Q) :
  basisPointKeys m = [] -> m = ∅.
Proof.
  intros H. apply map_eq. intros k. rewrite lookup_empty.
  destruct (m !! k) eqn:E; [|reflexivity].
  assert (k ∈ basisPointKeys m) as Hin by (apply elem_of_basisPointKeys; eauto).
  rewrite H in Hin. inversion Hin.
Qed.

Lemma nearestKey_unique m ref c c' :
  nearestKey m ref c -> nearestKey m ref c' -> c = c'.
Proof.
  intros (Hc & Hmin & Htie) (Hc' & Hmin' & Htie').
  pose proof (Hmin c' Hc'). pose proof (Hmin' c Hc).
  assert (c <= c') by (apply Htie; [assumption|lia]).
  assert (c' <= c) by (apply Htie'; [assumption|lia]).
  lia.
Qed.

Lemma reduceClosest_nearestKey (m : gmap Z Q) (ref c : Z) :
  reduceClosest id ref (basisPointKeys m) = Some c -> nearestKey m ref c.
Proof.
  intros H.
  destruct (reduceClosest_min id ref _ _ H) as [Hin Hmin].
  apply reduceClosest_split in H as (pre & post & E & Hpre & Hpost).
  pose proof (basisPointKeys_sorted m) as Hs. rewrite E in Hs.
  unfold dist, id in *.
  split; [by apply elem_of_basisPointKeys|]. split.
  - intros k Hk. apply Hmin. by apply elem_of_basisPointKeys.
  - intros k Hk Hd. apply elem_of_basisPointKeys in Hk. rewrite E in Hk.
    apply elem_of_app in Hk as [Hk|Hk].
    + specialize (Hpre k Hk). lia.
    + apply elem_of_cons in Hk as [->|Hk]; [lia|].
      apply StronglySorted_app_1_r in Hs.
      apply StronglySorted_cons in Hs as [Hall _].
      rewrite Forall_forall in Hall. by apply Hall.
Qed.

Lemma searched_priceAt (m : gmap Z Q) (ref : Z) : priceAt m ref (searched m ref).
Proof.
  unfold priceAt, searched.
  destruct (m !! ref) as [q|] eqn:E; simpl.
  - destruct (Js.truthyQ q); [reflexivity|].
    destruct (reduceClosest id ref (basisPointKeys m)) as [c|] eqn:Ec;
      [|reflexivity].
    apply reduceClosest_nearestKey in Ec as (_ & Hmin & _).
    assert (c = ref) as ->; [|assumption].
    specialize (Hmin ref). rewrite E in Hmin.
    specialize (Hmin (ltac:(eauto))). lia.
  - destruct (reduceClosest id ref (basisPointKeys m)) as [c|] eqn:Ec.
    + right. exists c. split; [|reflexivity].
      by apply reduceClosest_nearestKey.
    + left. split; [|reflexivity]. apply basisPointKeys_nil.
      destruct (basisPointKeys m); [reflexivity|discriminate].
Qed.

Lemma calculateSlope_searched (poolData : PoolData) :
  let m := Js.orObj (prices poolData) ∅ in
  calculateSlope poolData =
    match searched m 10, searched m 100 with
    | Some p01, Some p1 =>
        if negb (Js.truthyQ p01) || negb (Js.truthyQ p1) || Qeq_bool p01 0
        then None
        else Some ((p1 - p01) / p01)%Q
    | _, _ => None
    end.
Proof.
  intros m. unfold calculateSlope. fold m. rewrite !or_same.
  unfold searched.
  destruct (truthyPrice (m !! 10)) eqn:T10, (truthyPrice (m !! 100)) eqn:T100;
    simpl; try reflexivity.
  - destruct (basisPointKeys m) as [|k0 ks] eqn:Ek; simpl; reflexivity.
  - destruct (basisPointKeys m) as [|k0 ks] eqn:Ek; simpl; reflexivity.
  - destruct (basisPointKeys m) as [|k0 ks] eqn:Ek; simpl; reflexivity.
Qed.

Lemma bucketPrice_nonzero (b : Bucket) (q : Q) :
  bucketPrice b = Some q -> ~ (q == 0)%Q.
Proof.
  unfold bucketPrice, Js.or. intros H.
  repeat case_match; simplify_eq; by apply truthyQ_true.
Qed.

(** The [forEach] of the extractor stores no zero price: a bucket whose
    price is missing or zero is skipped. *)
Lemma buildPrices_nonzero (buckets : list Bucket) (k : Z) (q : Q) :
  buildPrices buckets !! k = Some q -> ~ (q == 0)%Q.
Proof.
  unfold buildPrices.
  assert (forall (m : gmap Z Q),
            (forall k q, m !! k = Some q -> ~ (q == 0)%Q) ->
            forall k q,
              fold_left
                (fun prices bucket =>
                   let bp := bucketBp bucket in
                   match bucketPrice bucket with
                   | Some price => <[bp := price]> prices
                   | None => prices
                   end) buckets m !! k = Some q -> ~ (q == 0)%Q) as Hgen.
  { induction buckets as [|b bs IH]; intros m Hm; simpl; [exact Hm|].
    apply IH. destruct (bucketPrice b) as [p|] eqn:Ep; [|exact Hm].
    intros k' q'. rewrite lookup_insert. case_decide.
    - intros [= <-]. by apply (bucketPrice_nonzero b).
    - apply Hm. }
  apply Hgen. intros k' q'. rewrite lookup_empty. discriminate.
Qed.

Lemma extractPoolData_prices decodedMessage now pd :
  extractPoolData decodedMessage now = Some pd ->
  exists buckets, prices pd = Some (buildPrices buckets).
Proof.
  unfold extractPoolData.
  destruct (negb (isSupportedToken _) || negb (isSupportedToken _));
    [discriminate|].
  destruct (String.eqb _ _ && String.eqb _ _);
    [|destruct (String.eqb _ _ && String.eqb _ _)];
    intros [= <-]; eexists; reflexivity.
Qed.

Lemma priceAt_lookup (m : gmap Z Q) (ref : Z) (q : Q) :
  priceAt m ref (Some q) -> exists k, m !! k = Some q.
Proof.
  unfold priceAt. destruct (m !! ref) as [q'|] eqn:E.
  - intros [= <-]. eauto.
  - intros [[_ H]|(c & _ & H)]; [discriminate|eauto].
Qed.

(** C4. [calculateSlope] returns (price at 100bp - price at 10bp) / price at
    10bp, each reference price being that of the exact bucket if present
    and otherwise that of the bucket nearest in basis points, the smaller
    basis-point value winning a tie; it returns null when a reference price
    is unresolved (absent or zero), in particular when the 10bp price is
    zero.  On a snapshot made by [extractPoolData] no price is zero, and
    the result is null exactly when a reference price is absent. *)
Theorem calculateSlope_spec (poolData : PoolData) :
  let m := Js.orObj (prices poolData) ∅ in
  exists p10 p100 : option Q,
    priceAt m 10 p10 /\ priceAt m 100 p100 /\
    (unresolved p10 \/ unresolved p100 -> calculateSlope poolData = None) /\
    (forall a, p10 = Some a -> (a == 0)%Q -> calculateSlope poolData = None) /\
    (forall a b, p10 = Some a -> p100 = Some b ->
       ~ (a == 0)%Q -> ~ (b == 0)%Q ->
       calculateSlope poolData = Some ((b - a) / a)%Q) /\
    (forall decodedMessage now,
       extractPoolData decodedMessage now = Some poolData ->
       (calculateSlope poolData = None <-> p10 = None \/ p100 = None) /\
       (forall a b, p10 = Some a -> p100 = Some b ->
          calculateSlope poolData = Some ((b - a) / a)%Q)).
Proof.
  intros m.
  assert (exists p10 p100 : option Q,
    priceAt m 10 p10 /\ priceAt m 100 p100 /\
    (unresolved p10 \/ unresolved p100 -> calculateSlope poolData = None) /\
    (forall a, p10 = Some a -> (a == 0)%Q -> calculateSlope poolData = None) /\
    (forall a b, p10 = Some a -> p100 = Some b ->
       ~ (a == 0)%Q -> ~ (b == 0)%Q ->
       calculateSlope poolData = Some ((b - a) / a)%Q))
    as (p10 & p100 & H10 & H100 & Hun & Hz & Hf).
  { exists (searched m 10), (searched m 100).
    split; [apply searched_priceAt|]. split; [apply searched_priceAt|].
    rewrite calculateSlope_searched. fold m.
    destruct (searched m 10) as [a|], (searched m 100) as [b|];
      (split; [|split]); try (intros; reflexivity); try discriminate.
    - intros [[H|(q & [= <-] & Hq)] | [H|(q & [= <-] & Hq)]];
        try discriminate.
      + apply truthyQ_false in Hq. rewrite Hq. reflexivity.
      + apply truthyQ_false in Hq. rewrite Hq.
        destruct (Js.truthyQ a); reflexivity.
    - intros a' [= <-] Hq. apply truthyQ_false in Hq. rewrite Hq.
      reflexivity.
    - intros a' b' [= <-] [= <-] Ha Hb.
      assert (Qeq_bool a 0 = false) as ->.
      { destruct (Qeq_bool a 0) eqn:E; [|reflexivity].
        apply Qeq_bool_iff in E. contradiction. }
      apply truthyQ_true in Ha, Hb. rewrite Ha, Hb. reflexivity. }
  exists p10, p100. repeat (split; [assumption|]).
  intros decodedMessage now He.
  destruct (extractPoolData_prices _ _ _ He) as [buckets Hb].
  assert (forall q, priceAt m 10 (Some q) \/ priceAt m 100 (Some q) ->
                    ~ (q == 0)%Q) as Hnz.
  { intros q [H|H]; apply priceAt_lookup in H as [k Hk];
      subst m; rewrite Hb in Hk; simpl in Hk;
      by apply (buildPrices_nonzero buckets k). }
  assert (forall a b, p10 = Some a -> p100 = Some b ->
            calculateSlope poolData = Some ((b - a) / a)%Q) as Hall.
  { intros a b -> ->. apply Hf; try reflexivity; apply Hnz; auto. }
  split; [|exact Hall]. split.
  - intros Hnone. destruct p10 as [a|]; [|auto]. destruct p100 as [b|]; [|auto].
    rewrite (Hall a b eq_refl eq_refl) in Hnone. discriminate.
  - intros [-> | ->]; apply Hun; [left|right]; left; reflexivity.
Qed.

(** ** Pool record extractor *)

Example parseInt_dec : parseInt "1700000000123" = Js.Int 1700000000123.
Proof. reflexivity. Qed.
Example parseInt_prefix : parseInt "  -42ms" = Js.Int (-42).
Proof. reflexivity. Qed.
Example parseInt_hex : parseInt "0x1F" = Js.Int 31.
Proof. reflexivity. Qed.
Example parseInt_fail : parseInt "soon" = Js.NaN.
Proof. reflexivity. Qed.

Lemma extractPoolData_timestamp_eq decodedMessage now pd :
  extractPoolData decodedMessage now = Some pd ->
  timestamp pd = extractTimestamp decodedMessage now.
Proof.
  unfold extractPoolData.
  destruct (negb (isSupportedToken _) || negb (isSupportedToken _));
    [discriminate|].
  destruct (String.eqb _ _ && String.eqb _ _);
    [|destruct (String.eqb _ _ && String.eqb _ _)];
    intros [= <-]; reflexivity.
Qed.

Lemma extractTimestamp_timeOf decodedMessage now :
  extractTimestamp decodedMessage now =
    match timeOf decodedMessage with
    | Some timeObj =>
        if Msg.truthyTime timeObj then
          match timeObj with
          | Msg.TimeObj (Some low) (Some high) =>
              Js.Int (low + high * 4294967296)
          | Msg.TimeObj _ _ => Js.Int now
          | Msg.TimeStr s => parseInt s
          | Msg.TimeNum n => n
          end
        else Js.Int now
    | None => Js.Int now
    end.
Proof.
  unfold extractTimestamp, timeOf.
  destruct (Js.or always _ _) as [h|]; simpl; [|reflexivity].
  destruct (Msg.Time h); reflexivity.
Qed.

(** C9, as stated, fails on both of its last two clauses: a plain number
    is not always the timestamp (0 gives the wall clock), and a string that
    does not parse does not give the wall clock (it gives NaN). *)
Lemma timestamp_rule_counterexample :
  ~ (forall decodedMessage now pd n,
       extractPoolData decodedMessage now = Some pd ->
       timeOf decodedMessage = Some (Msg.TimeNum n) ->
       timestamp pd = n) /\
  ~ (forall decodedMessage now pd s,
       extractPoolData decodedMessage now = Some pd ->
       timeOf decodedMessage = Some (Msg.TimeStr s) ->
       parseInt s = Js.NaN ->
       timestamp pd = Js.Int now) /\
  ~ (forall decodedMessage now pd,
       extractPoolData decodedMessage now = Some pd ->
       timestamp pd = timestampRule (timeOf decodedMessage) now).
Proof.
  split; [|split]; intros H.
  - pose proof (H (recordAt (Msg.TimeNum (Js.Int 0)) []) 1700000000000 _ _
                  eq_refl eq_refl) as H0.
    vm_compute in H0. discriminate H0.
  - pose proof (H (recordAt (Msg.TimeStr "soon") []) 1700000000000 _ _
                  eq_refl eq_refl eq_refl) as H0.
    vm_compute in H0. discriminate H0.
  - pose proof (H (recordAt (Msg.TimeNum (Js.Int 0)) []) 1700000000000 _
                  eq_refl) as H0.
    vm_compute in H0. discriminate H0.
Qed.

(** C9, amended.  The snapshot timestamp is the wall clock when the header
    or its [Time] is absent or falsy (0, NaN, the empty string) or [Time]
    is an object without both [low] and [high]; it is low + high * 2^32
    for the split encoding, the number itself for a non-zero plain number,
    and the integer parse of a non-empty string when that parse
    succeeds. *)
Theorem extractPoolData_timestamp (decodedMessage : Msg.Decoded) (now : Z)
    (pd : PoolData) :
  extractPoolData decodedMessage now = Some pd ->
  (timeOf decodedMessage = None -> timestamp pd = Js.Int now) /\
  (forall t, timeOf decodedMessage = Some t -> Msg.truthyTime t = false ->
     timestamp pd = Js.Int now) /\
  (forall low high,
     timeOf decodedMessage = Some (Msg.TimeObj (Some low) (Some high)) ->
     timestamp pd = Js.Int (low + high * 2 ^ 32)) /\
  (forall low high,
     timeOf decodedMessage = Some (Msg.TimeObj low high) ->
     low = None \/ high = None -> timestamp pd = Js.Int now) /\
  (forall n, timeOf decodedMessage = Some (Msg.TimeNum n) ->
     Js.truthyN n = true -> timestamp pd = n) /\
  (forall s z, timeOf decodedMessage = Some (Msg.TimeStr s) ->
     s <> "" -> parseInt s = Js.Int z -> timestamp pd = Js.Int z).
Proof.
  intros H. apply extractPoolData_timestamp_eq in H. rewrite H.
  rewrite extractTimestamp_timeOf. clear H.
  repeat split.
  - intros ->. reflexivity.
  - intros t -> ->. reflexivity.
  - intros low high ->. reflexivity.
  - intros low high -> [-> | ->]; simpl; [reflexivity|].
    destruct low; reflexivity.
  - intros n -> Hn. simpl. rewrite Hn. reflexivity.
  - intros s z -> Hs Hp. simpl.
    assert (Js.truthyS s = true) as ->.
    { unfold Js.truthyS. apply negb_true_iff. apply String.eqb_neq. exact Hs. }
    exact Hp.
Qed.

(** A string that is truthy but does not parse leaves NaN in the snapshot;
    [updateHistory] later replaces it by the wall clock of the update. *)
Lemma extractPoolData_timestamp_NaN (decodedMessage : Msg.Decoded) (now : Z)
    (pd : PoolData) (s : string) :
  extractPoolData decodedMessage now = Some pd ->
  timeOf decodedMessage = Some (Msg.TimeStr s) ->
  s <> "" -> parseInt s = Js.NaN -> timestamp pd = Js.NaN.
Proof.
  intros H Ht Hs Hp. apply extractPoolData_timestamp_eq in H. rewrite H.
  rewrite extractTimestamp_timeOf, Ht. simpl.
  assert (Js.truthyS s = true) as ->.
  { unfold Js.truthyS. apply negb_true_iff. apply String.eqb_neq. exact Hs. }
  exact Hp.
Qed.

(** ** History tracker *)

Section History.
Local Open Scope nat_scope.

Lemma historyOf_updateHistory_same pd s now sh :
  historyOf (updateHistory pd s now sh) (poolAddress pd) =
    pushShift (historyOf sh (poolAddress pd))
      (pushedRecord pd s now (historyOf sh (poolAddress pd))).
Proof.
  unfold updateHistory, historyOf, pushShift.
  destruct (sh !! poolAddress pd) as [h|] eqn:E; simpl.
  - rewrite E. simpl. rewrite lookup_insert_eq. reflexivity.
  - rewrite !lookup_insert_eq. reflexivity.
Qed.

Lemma historyOf_updateHistory_other pd s now sh p :
  poolAddress pd <> p ->
  historyOf (updateHistory pd s now sh) p = historyOf sh p.
Proof.
  intros Hne. unfold updateHistory, historyOf.
  destruct (sh !! poolAddress pd) as [h|] eqn:E; simpl.
  - rewrite lookup_insert_ne by assumption. reflexivity.
  - rewrite !lookup_insert_ne by assumption. reflexivity.
Qed.

Lemma pushShift_length h r :
  length h <= maxHistorySize -> length (pushShift h r) <= maxHistorySize.
Proof.
  intros Hh. unfold pushShift.
  destruct (Nat.ltb_spec maxHistorySize (length (h ++ [r]))) as [Hlt|Hge].
  - rewrite length_app in Hlt. simpl in Hlt.
    destruct h as [|x h]; simpl in *; [lia|].
    rewrite length_app. simpl. lia.
  - exact Hge.
Qed.

Lemma pushShift_lastN h r rest :
  length h <= maxHistorySize ->
  lastN maxHistorySize (pushShift h r ++ rest) =
  lastN maxHistorySize (h ++ r :: rest).
Proof.
  intros Hh. unfold pushShift, lastN.
  destruct (Nat.ltb_spec maxHistorySize (length (h ++ [r]))) as [Hlt|Hge].
  - rewrite length_app in Hlt. simpl in Hlt.
    assert (length h = maxHistorySize) as Hlen by lia.
    destruct h as [|x h]; [unfold maxHistorySize in *; simpl in *; lia|].
    simpl tail. simpl in Hlen.
    rewrite <- app_assoc. simpl.
    rewrite !length_app. simpl.
    replace (length h + S (length rest) - 99)
      with (S (length h + S (length rest) - maxHistorySize))
      by (unfold maxHistorySize in *; lia).
    reflexivity.
  - rewrite <- app_assoc. reflexivity.
Qed.

Lemma runUpdates_history p us : forall sh,
  length (historyOf sh p) <= maxHistorySize ->
  length (historyOf (runUpdates us sh) p) <= maxHistorySize /\
  historyOf (runUpdates us sh) p =
    lastN maxHistorySize (historyOf sh p ++ appendedTo p us sh).
Proof.
  induction us as [|[[pd s] now] us IH]; intros sh Hlen; simpl.
  - split; [assumption|]. unfold lastN. rewrite app_nil_r.
    replace (length (historyOf sh p) - maxHistorySize) with 0 by lia.
    reflexivity.
  - destruct (String.eqb_spec (poolAddress pd) p) as [<-|Hne].
    + destruct (IH (updateHistory pd s now sh)) as [IH1 IH2].
      { rewrite historyOf_updateHistory_same. by apply pushShift_length. }
      split; [assumption|].
      rewrite IH2, historyOf_updateHistory_same.
      simpl. by apply pushShift_lastN.
    + destruct (IH (updateHistory pd s now sh)) as [IH1 IH2].
      { by rewrite historyOf_updateHistory_other. }
      split; [assumption|].
      rewrite IH2, historyOf_updateHistory_other by assumption.
      reflexivity.
Qed.

(** C3. After any sequence of history updates, the history of every pool
    has at most 100 records, and they are exactly the most recently
    appended ones of that pool, in arrival order (the oldest were
    evicted first). *)
Theorem updateHistory_bounded_fifo (p : string) (us : list Update) :
  let history := historyOf (runUpdates us ∅) p in
  let appended := appendedTo p us ∅ in
  length history <= 100 /\
  length history = Nat.min 100 (length appended) /\
  history = drop (length appended - 100) appended.
Proof.
  intros history appended.
  destruct (runUpdates_history p us ∅) as [H1 H2].
  { unfold historyOf. rewrite lookup_empty. simpl. lia. }
  assert (history = drop (length appended - 100) appended) as E.
  { subst history. rewrite H2. unfold lastN, historyOf.
    rewrite lookup_empty. reflexivity. }
  split; [exact H1|]. split; [|exact E].
  rewrite E at 1. rewrite length_drop. lia.
Qed.
End History.

(** *** Delta slope *)

Lemma calculateDeltaSlope_nil p cur sh :
  historyOf sh p = [] -> calculateDeltaSlope p cur sh = None.
Proof.
  unfold calculateDeltaSlope, historyOf. intros ->. reflexivity.
Qed.

Lemma calculateDeltaSlope_snoc p cur sh h r :
  historyOf sh p = h ++ [r] ->
  calculateDeltaSlope p cur sh = Some (cur - SlopeRecord.slope r)%Q.
Proof.
  unfold calculateDeltaSlope, historyOf. intros ->.
  rewrite length_app. simpl.
  replace (length h + 1 =? 0)%nat with false
    by (symmetry; apply Nat.eqb_neq; lia).
  replace (length h + 1 - 1)%nat with (length h) by lia.
  rewrite list_lookup_middle by reflexivity. reflexivity.
Qed.

Lemma pushShift_snoc h r : exists h', pushShift h r = h' ++ [r].
Proof.
  unfold pushShift.
  destruct (maxHistorySize <? length (h ++ [r]))%nat eqn:E.
  - destruct h as [|x h]; [discriminate E|]. exists h. reflexivity.
  - exists h. reflexivity.
Qed.

Lemma processPoolData_resolved decodedMessage now now' e cfg pd s :
  config e = Some cfg ->
  extractPoolData decodedMessage now = Some pd ->
  calculateSlope pd = Some s ->
  exists signal,
    processPoolData decodedMessage now now' e =
      (Js.Ok (Some {| res_poolData := pd;
                      res_slope := Some s;
                      res_deltaSlope :=
                        calculateDeltaSlope (poolAddress pd) s (slopeHistory e);
                      res_signal := signal |}),
       {| slopeHistory := updateHistory pd s now' (slopeHistory e);
          config := config e |}).
Proof.
  intros Hc He Hs. unfold processPoolData. rewrite He, Hs. simpl.
  rewrite Hc.
  destruct (calculateDeltaSlope _ _ _) as [d|]; simpl.
  - destruct (Js.Qltb d 0 && Js.Qltb s (slopeThreshold cfg));
      [eexists; reflexivity|].
    destruct (Js.Qltb 0 d || Js.Qltb (slopeThreshold cfg) s);
      eexists; reflexivity.
  - eexists; reflexivity.
Qed.

(** C5. [calculateDeltaSlope] returns null when the pool has no prior
    record and otherwise the current slope minus the slope of the last
    record; [processPoolData] computes it on the history as it is before
    the new record is appended, so the first observation of a pool has a
    null delta and the second, with slopes s1 then s2, has s2 - s1. *)
Theorem calculateDeltaSlope_spec :
  (forall p cur sh,
     historyOf sh p = [] -> calculateDeltaSlope p cur sh = None) /\
  (forall p cur sh h r,
     historyOf sh p = h ++ [r] ->
     calculateDeltaSlope p cur sh = Some (cur - SlopeRecord.slope r)%Q) /\
  (forall decodedMessage now now' e cfg pd s,
     config e = Some cfg ->
     extractPoolData decodedMessage now = Some pd ->
     calculateSlope pd = Some s ->
     exists r,
       fst (processPoolData decodedMessage now now' e) = Js.Ok (Some r) /\
       res_slope r = Some s /\
       res_deltaSlope r =
         calculateDeltaSlope (poolAddress pd) s (slopeHistory e) /\
       slopeHistory (snd (processPoolData decodedMessage now now' e)) =
         updateHistory pd s now' (slopeHistory e)) /\
  (forall m1 m2 n1 n1' n2 n2' e cfg pd1 pd2 s1 s2,
     config e = Some cfg ->
     extractPoolData m1 n1 = Some pd1 ->
     extractPoolData m2 n2 = Some pd2 ->
     poolAddress pd1 = poolAddress pd2 ->
     calculateSlope pd1 = Some s1 ->
     calculateSlope pd2 = Some s2 ->
     historyOf (slopeHistory e) (poolAddress pd1) = [] ->
     exists r1 r2,
       fst (processPoolData m1 n1 n1' e) = Js.Ok (Some r1) /\
       res_deltaSlope r1 = None /\
       fst (processPoolData m2 n2 n2' (snd (processPoolData m1 n1 n1' e)))
         = Js.Ok (Some r2) /\
       res_deltaSlope r2 = Some (s2 - s1)%Q).
Proof.
  split; [exact calculateDeltaSlope_nil|].
  split; [exact calculateDeltaSlope_snoc|].
  split.
  - intros decodedMessage now now' e cfg pd s Hc He Hs.
    destruct (processPoolData_resolved _ now now' _ _ _ _ Hc He Hs)
      as [signal ->].
    eexists. simpl. repeat split.
  - intros m1 m2 n1 n1' n2 n2' e cfg pd1 pd2 s1 s2 Hc He1 He2 Hp Hs1 Hs2 Hh.
    destruct (processPoolData_resolved _ n1 n1' _ _ _ _ Hc He1 Hs1)
      as [sig1 ->].
    simpl.
    set (e1 := {| slopeHistory := updateHistory pd1 s1 n1' (slopeHistory e);
                  config := config e |}).
    assert (config e1 = Some cfg) as Hc1 by exact Hc.
    destruct (processPoolData_resolved _ n2 n2' _ _ _ _ Hc1 He2 Hs2)
      as [sig2 ->].
    simpl. eexists _, _. split; [reflexivity|]. simpl.
    split; [by apply calculateDeltaSlope_nil|].
    split; [reflexivity|]. simpl.
    rewrite <- Hp.
    pose proof (historyOf_updateHistory_same pd1 s1 n1' (slopeHistory e)) as Hu.
    destruct (pushShift_snoc (historyOf (slopeHistory e) (poolAddress pd1))
                (pushedRecord pd1 s1 n1'
                   (historyOf (slopeHistory e) (poolAddress pd1))))
      as [h' Eh].
    rewrite Eh in Hu.
    rewrite (calculateDeltaSlope_snoc _ _ _ _ _ Hu). reflexivity.
Qed.

(** ** Execution price *)

Example price_exact :
  getExecutionPrice (snapshot [bucket 10 101; bucket 100 100; bucket 200 98])
    1 (1 # 100) BUY = Some 100%Q.
Proof. vm_compute. reflexivity. Qed.

Example price_nearest_tie :
  getExecutionPrice (snapshot [bucket 60 7; bucket 40 9; bucket 200 98])
    1 (5 # 1000) BUY = Some 7%Q.
Proof. vm_compute. reflexivity. Qed.

Lemma find_first {A} (f : A -> bool) (pre post : list A) (b : A) :
  f b = true -> (forall x, x ∈ pre -> f x = false) ->
  List.find f (pre ++ b :: post) = Some b.
Proof.
  intros Hb. induction pre as [|x pre IH]; intros Hpre; simpl.
  - rewrite Hb. reflexivity.
  - rewrite (Hpre x) by (apply elem_of_cons; auto).
    apply IH. intros y Hy. apply Hpre. apply elem_of_cons. auto.
Qed.



(** ** Trade ledger *)

Lemma executeBuy_success poolData amount slippage strategy now now' L p :
  getExecutionPrice poolData amount slippage BUY = Some p ->
  ~ (p == 0)%Q ->
  exists t,
    executeBuy poolData amount slippage strategy now now' L =
      (Js.Ok (length (heap L)),
       {| heap := heap L ++ [t];
          trades := trades L ++ [length (heap L)];
          openPosition := Some (length (heap L));
          tradeCounter := tradeCounter L + 1 |}) /\
    Trade.type t = BUY /\
    Trade.amount t = amount /\
    Trade.entryPrice t = p /\
    Trade.exitPrice t = None /\
    Trade.exitTimestamp t = None.
Proof.
  intros Hp Hnz. unfold executeBuy. rewrite Hp.
  apply truthyQ_true in Hnz. rewrite Hnz. simpl.
  eexists. split; [reflexivity|]. simpl. repeat split.
Qed.

Lemma executeBuy_failure poolData amount slippage strategy now now' L msg :
  fst (executeBuy poolData amount slippage strategy now now' L) = Js.Throw msg ->
  snd (executeBuy poolData amount slippage strategy now now' L) = L.
Proof.
  unfold executeBuy.
  destruct (getExecutionPrice _ _ _ _) as [p|]; [|reflexivity].
  destruct (negb (Js.truthyQ p)); [reflexivity|].
  simpl. discriminate.
Qed.

Lemma executeSell_failure poolData amount slippage strategy now now' L msg :
  fst (executeSell poolData amount slippage strategy now now' L) = Js.Throw msg ->
  snd (executeSell poolData amount slippage strategy now now' L) = L.
Proof.
  unfold executeSell.
  destruct (openPosition L) as [ref|]; [|reflexivity].
  destruct (getExecutionPrice _ _ _ _) as [p|]; [|reflexivity].
  destruct (negb (Js.truthyQ p)); [reflexivity|].
  destruct (heap L !! ref); [|reflexivity].
  simpl. discriminate.
Qed.

(** C2. The open-position slot is global: a successful [executeBuy]
    appends the new open trade to [trades] and makes it the open position
    whatever was open before and whatever its pool; the trade that was open
    stays in the ledger, unchanged, with no exit price. *)
Theorem executeBuy_global_slot (poolData : PoolData) (amount slippage : Q)
    (strategy : Strategy) (now now' : Z) (L : Ledger) (p : Q) :
  getExecutionPrice poolData amount slippage BUY = Some p ->
  ~ (p == 0)%Q ->
  let ref := length (heap L) in
  let L' := snd (executeBuy poolData amount slippage strategy now now' L) in
  fst (executeBuy poolData amount slippage strategy now now' L) = Js.Ok ref /\
  trades L' = trades L ++ [ref] /\
  openPosition L' = Some ref /\
  (exists t, heap L' !! ref = Some t /\ heap L' = heap L ++ [t] /\
             Trade.type t = BUY /\ Trade.entryPrice t = p /\
             Trade.exitPrice t = None) /\
  (forall ref0 t0,
     openPosition L = Some ref0 -> ref0 ∈ trades L ->
     heap L !! ref0 = Some t0 -> Trade.exitPrice t0 = None ->
     openPosition L' <> Some ref0 /\
     ref0 ∈ trades L' /\
     heap L' !! ref0 = Some t0).
Proof.
  intros Hp Hnz ref L'.
  destruct (executeBuy_success poolData amount slippage strategy now now' L p
              Hp Hnz) as (t & E & Hty & _ & Hen & Hex & _).
  subst L'. rewrite E. simpl. fold ref.
  split; [reflexivity|]. split; [reflexivity|]. split; [reflexivity|].
  split.
  - exists t. split; [|auto].
    subst ref. apply list_lookup_middle. reflexivity.
  - intros ref0 t0 Ho Hin Hh Hx.
    pose proof (lookup_lt_Some _ _ _ Hh) as Hlt. fold ref in Hlt.
    split; [intros [= Heq]; lia|]. split.
    + apply elem_of_app. auto.
    + rewrite lookup_app_l by exact Hlt. exact Hh.
Qed.

(** C7. With no open position [executeSell] returns null and leaves the
    ledger as it was: same trades, same open-position reference, same
    counter; nothing is thrown. *)
Theorem executeSell_no_open_position (poolData : PoolData)
    (amount slippage : Q) (strategy : Strategy) (now now' : Z) (L : Ledger) :
  openPosition L = None ->
  executeSell poolData amount slippage strategy now now' L = (Js.Ok None, L).
Proof.
  intros H. unfold executeSell. rewrite H. reflexivity.
Qed.

(** C8. [calculatePnL] is 0 for a trade without a resolved exit price,
    (exitPrice - entryPrice) * amount for a BUY-opened trade and
    (entryPrice - exitPrice) * amount for a SELL-opened one; from the empty
    ledger, a buy of amount 1 at price 100 followed by a sell at price 105
    leaves exactly one trade in the ledger, closed, with PnL 5. *)
Theorem calculatePnL_spec :
  (forall t, Trade.exitPrice t = None -> calculatePnL t = 0%Q) /\
  (forall t x, Trade.exitPrice t = Some x -> (x == 0)%Q ->
     calculatePnL t = 0%Q) /\
  (forall t x, Trade.exitPrice t = Some x -> ~ (x == 0)%Q ->
     Trade.type t = BUY ->
     calculatePnL t = ((x - Trade.entryPrice t) * Trade.amount t)%Q) /\
  (forall t x, Trade.exitPrice t = Some x -> ~ (x == 0)%Q ->
     Trade.type t = SELL ->
     calculatePnL t = ((Trade.entryPrice t - x) * Trade.amount t)%Q) /\
  (forall pd pd' sl sl' amount' st st' n1 n2 n3 n4 pin pout,
     getExecutionPrice pd 1 sl BUY = Some pin -> (pin == 100)%Q ->
     getExecutionPrice pd' amount' sl' SELL = Some pout -> (pout == 105)%Q ->
     let L1 := snd (executeBuy pd 1 sl st n1 n2 initialLedger) in
     let r2 := executeSell pd' amount' sl' st' n3 n4 L1 in
     exists t t',
       fst r2 = Js.Ok (Some t') /\
       ledgerTrades (snd r2) = [t] /\
       openPosition (snd r2) = None /\
       Trade.exitPrice t = Some pout /\
       Trade.exitPrice t' = Some pout /\
       (calculatePnL t == 5)%Q /\
       (calculatePnL t' == 5)%Q).
Proof.
  split; [|split; [|split; [|split]]].
  - intros t H. unfold calculatePnL. rewrite H. reflexivity.
  - intros t x H Hx. unfold calculatePnL. rewrite H. simpl.
    apply truthyQ_false in Hx. rewrite Hx. reflexivity.
  - intros t x H Hx Ht. unfold calculatePnL. rewrite H, Ht. simpl.
    apply truthyQ_true in Hx. rewrite Hx. reflexivity.
  - intros t x H Hx Ht. unfold calculatePnL. rewrite H, Ht. simpl.
    apply truthyQ_true in Hx. rewrite Hx. reflexivity.
  - intros pd pd' sl sl' amount' st st' n1 n2 n3 n4 pin pout Hin Ein Hout Eout
           L1 r2.
    assert (~ (pin == 0)%Q) as Hin0 by (rewrite Ein; discriminate).
    assert (~ (pout == 0)%Q) as Hout0 by (rewrite Eout; discriminate).
    destruct (executeBuy_success pd 1 sl st n1 n2 initialLedger pin Hin Hin0)
      as (t0 & E & Hty & Ham & Hen & Hex & _).
    subst r2 L1. rewrite E. simpl.
    unfold executeSell. simpl. rewrite Hout.
    pose proof Hout0 as Htr. apply truthyQ_true in Htr. rewrite Htr.
    simpl.
    exists (closeTrade pout n3 t0), (closeTrade pout n4 (closeTrade pout n3 t0)).
    repeat (split; [reflexivity|]).
    unfold calculatePnL. simpl. rewrite Htr. simpl.
    rewrite Hty, Ham, Hen. rewrite Ein, Eout. split; reflexivity.
Qed.

Lemma openRecorded_initial : openRecorded initialLedger.
Proof. intros ref H. discriminate H. Qed.

Lemma openRecorded_step L op : openRecorded L -> openRecorded (step L op).
Proof.
  intros HL. destruct op as [pd a s st n n'|pd a s st n n'|]; simpl.
  - unfold executeBuy.
    destruct (getExecutionPrice pd a s BUY) as [p|]; [|exact HL].
    destruct (negb (Js.truthyQ p)); [exact HL|].
    simpl. intros ref [= <-]. split.
    + apply elem_of_app. right. apply list_elem_of_singleton. reflexivity.
    + eexists. split; [apply list_lookup_middle; reflexivity|reflexivity].
  - unfold executeSell.
    destruct (openPosition L) as [ref0|] eqn:Eo; [|exact HL].
    destruct (getExecutionPrice pd a s SELL) as [p|]; [|exact HL].
    destruct (negb (Js.truthyQ p)); [exact HL|].
    destruct (heap L !! ref0); [|exact HL].
    simpl. intros ref H. discriminate H.
  - intros ref H. discriminate H.
Qed.

Lemma openRecorded_fold ops : forall L,
  openRecorded L -> openRecorded (fold_left step ops L).
Proof.
  induction ops as [|op ops IH]; intros L HL; simpl; [exact HL|].
  apply IH. by apply openRecorded_step.
Qed.

(** C10. After any sequence of [executeBuy], [executeSell] and
    [resetTrades], a non-null open-position reference points at a trade
    that is in [trades] and has no exit price; an operation that throws
    leaves the ledger as it was. *)
Theorem openPosition_recorded_and_open (ops : list Op) :
  let L := run ops in
  (forall ref, openPosition L = Some ref ->
     ref ∈ trades L /\
     exists t, heap L !! ref = Some t /\ Trade.exitPrice t = None) /\
  (forall pd amount slippage strategy now now' msg,
     fst (executeBuy pd amount slippage strategy now now' L) = Js.Throw msg ->
     snd (executeBuy pd amount slippage strategy now now' L) = L) /\
  (forall pd amount slippage strategy now now' msg,
     fst (executeSell pd amount slippage strategy now now' L) = Js.Throw msg ->
     snd (executeSell pd amount slippage strategy now now' L) = L).
Proof.
  intros L. split; [|split].
  - apply (openRecorded_fold ops initialLedger openRecorded_initial).
  - intros. by eapply executeBuy_failure.
  - intros. by eapply executeSell_failure.
Qed.

(** ** The properties at concrete inputs *)

Lemma generateSignal_spec_witness :
  generateSignal (Some defaultConfig) (Some (- (2 # 1000))%Q)
    (Some (- (5 # 10000))%Q) = Js.Ok (Some BUY) /\
  generateSignal (Some defaultConfig) (Some (- (3 # 10000))%Q)
    (Some (2 # 10000)%Q) = Js.Ok (Some SELL) /\
  generateSignal (Some defaultConfig) (Some (- (1 # 1000))%Q) (Some 0%Q)
    = Js.Ok None.
Proof.
  split; [|split].
  - apply (proj2 (generateSignal_spec defaultConfig _ _) _ _ eq_refl eq_refl).
    split; reflexivity.
  - apply (proj2 (generateSignal_spec defaultConfig _ _) _ _ eq_refl eq_refl).
    + intros [H _]. discriminate H.
    + left. reflexivity.
  - apply (proj2 (generateSignal_spec defaultConfig _ _) _ _ eq_refl eq_refl);
      reflexivity.
Defined.

Lemma executeBuy_global_slot_witness :
  let L' := snd (executeBuy otherPool 1 (1 # 100) StrategyA 3 4 ledgerWithOpen) in
  openPosition ledgerWithOpen = Some 0%nat /\
  trades L' = [0%nat; 1%nat] /\
  openPosition L' = Some 1%nat /\
  (Trade.poolAddress <$> heap L' !! 0%nat) = Some "0xpool" /\
  (Trade.exitPrice <$> heap L' !! 0%nat) = Some None.
Proof.
  intros L'.
  destruct (executeBuy_global_slot otherPool 1 (1 # 100) StrategyA 3 4
              ledgerWithOpen 102%Q eq_refl ltac:(discriminate))
    as (_ & Ht & Ho & _ & Hold).
  destruct (heap ledgerWithOpen !! 0%nat) as [t0|] eqn:E0; [|discriminate E0].
  destruct (Hold 0%nat t0 eq_refl) as (_ & _ & Hh).
  - apply list_elem_of_singleton. reflexivity.
  - exact E0.
  - vm_compute in E0. injection E0 as <-. reflexivity.
  - split; [reflexivity|]. split; [exact Ht|]. split; [exact Ho|].
    fold L' in Hh. rewrite Hh.
    vm_compute in E0. injection E0 as <-. split; reflexivity.
Defined.

Lemma calculateSlope_spec_witness :
  calculateSlope (mkPrices [(10, 100%Q); (100, 99%Q)])
  = Some ((99 - 100) / 100)%Q.
Proof.
  destruct (calculateSlope_spec (mkPrices [(10, 100%Q); (100, 99%Q)]))
    as (p10 & p100 & H10 & H100 & _ & _ & Hf & _).
  vm_compute in H10, H100. subst p10 p100.
  apply (Hf _ _ eq_refl eq_refl); discriminate.
Defined.

Lemma calculateDeltaSlope_spec_witness :
  exists r1 r2,
    fst (processPoolData (observation 99) 1 2
           (initializeStrategy defaultConfig initialEngine)) = Js.Ok (Some r1) /\
    res_deltaSlope r1 = None /\
    fst (processPoolData (observation 98) 3 4
           (snd (processPoolData (observation 99) 1 2
                   (initializeStrategy defaultConfig initialEngine))))
      = Js.Ok (Some r2) /\
    res_deltaSlope r2 = Some ((98 - 100) / 100 - (99 - 100) / 100)%Q.
Proof.
  eapply (proj2 (proj2 (proj2 calculateDeltaSlope_spec))
            (observation 99) (observation 98) 1 2 3 4
            (initializeStrategy defaultConfig initialEngine) defaultConfig);
    reflexivity.
Defined.


Lemma executeSell_no_open_position_witness :
  executeSell (snapshot [bucket 100 105]) 1 (1 # 100) StrategyA 1 2
    initialLedger = (Js.Ok None, initialLedger).
Proof.
  apply executeSell_no_open_position. reflexivity.
Defined.

Lemma calculatePnL_spec_witness :
  let L1 :=
    snd (executeBuy (snapshot [bucket 100 100]) 1 (1 # 100) StrategyA 1 2
           initialLedger) in
  let r2 :=
    executeSell (snapshot [bucket 100 105]) 1 (1 # 100) StrategyA 3 4 L1 in
  exists t t',
    fst r2 = Js.Ok (Some t') /\
    ledgerTrades (snd r2) = [t] /\
    openPosition (snd r2) = None /\
    Trade.exitPrice t = Some 105%Q /\
    Trade.exitPrice t' = Some 105%Q /\
    (calculatePnL t == 5)%Q /\
    (calculatePnL t' == 5)%Q.
Proof.
  apply (proj2 (proj2 (proj2 (proj2 calculatePnL_spec)))
           (snapshot [bucket 100 100]) (snapshot [bucket 100 105])
           (1 # 100)%Q (1 # 100)%Q 1%Q StrategyA StrategyA 1 2 3 4
           100%Q 105%Q);
    reflexivity.
Defined.

Lemma extractPoolData_timestamp_witness :
  timestamp <$> extractPoolData (recordAt (Msg.TimeObj (Some 5) (Some 1)) []) 7
  = Some (Js.Int (5 + 1 * 2 ^ 32)).
Proof.
  destruct (extractPoolData (recordAt (Msg.TimeObj (Some 5) (Some 1)) []) 7)
    as [pd|] eqn:E; [|discriminate E].
  destruct (extractPoolData_timestamp _ _ _ E) as (_ & _ & H & _).
  simpl. f_equal. apply H. reflexivity.
Defined.

Lemma openPosition_recorded_and_open_witness :
  openPosition (run someOps) = Some 2%nat /\
  2%nat ∈ trades (run someOps) /\
  exists t, heap (run someOps) !! 2%nat = Some t /\ Trade.exitPrice t = None.
Proof.
  split; [reflexivity|].
  apply (proj1 (openPosition_recorded_and_open someOps) 2%nat). reflexivity.
Defined.

(** Eviction at work: 102 updates of one pool keep the last 100. *)
Example history_eviction :
  let us : list Update :=
    map (fun i => (snapshot [], inject_Z (Z.of_nat i), 1700000000000 + Z.of_nat i))
        (seq 1 102) in
  map SlopeRecord.slope (historyOf (runUpdates us ∅) "0xpool")
  = map (fun i => inject_Z (Z.of_nat i)) (seq 3 100).
Proof. vm_compute. reflexivity. Qed.

(** * Further properties *)

(** ** Ledger invariants *)

Lemma wellFormed_initial : wellFormed initialLedger.
Proof.
  repeat split.
  - constructor.
  - intros ref H. inversion H.
  - discriminate.
  - discriminate.
Qed.

Lemma wellFormed_step L op : wellFormed L -> wellFormed (step L op).
Proof.
  intros (Hc & Hnd & Hs & Ho).
  assert (forall ref, ref ∈ trades L -> (ref < length (heap L))%nat) as Hlt.
  { intros ref Hin. destruct (Hs ref Hin) as (t & Ht & _).
    by eapply lookup_lt_Some. }
  split; [|split; [|split]]; [| | |by apply openRecorded_step].
  - destruct op as [pd a s st n n'|pd a s st n n'|]; simpl; [| |reflexivity].
    + unfold executeBuy.
      destruct (getExecutionPrice pd a s BUY) as [p|]; [|exact Hc].
      destruct (negb (Js.truthyQ p)); [exact Hc|]. simpl.
      rewrite length_app. simpl. lia.
    + unfold executeSell.
      destruct (openPosition L) as [ref0|]; [|exact Hc].
      destruct (getExecutionPrice pd a s SELL) as [p|]; [|exact Hc].
      destruct (negb (Js.truthyQ p)); [exact Hc|].
      destruct (heap L !! ref0); exact Hc.
  - destruct op as [pd a s st n n'|pd a s st n n'|]; simpl; [| |constructor].
    + unfold executeBuy.
      destruct (getExecutionPrice pd a s BUY) as [p|]; [|exact Hnd].
      destruct (negb (Js.truthyQ p)); [exact Hnd|]. simpl.
      apply NoDup_app. split; [exact Hnd|]. split.
      * intros ref Hin Hin'. apply list_elem_of_singleton in Hin'.
        specialize (Hlt ref Hin). lia.
      * apply NoDup_singleton.
    + unfold executeSell.
      destruct (openPosition L) as [ref0|]; [|exact Hnd].
      destruct (getExecutionPrice pd a s SELL) as [p|]; [|exact Hnd].
      destruct (negb (Js.truthyQ p)); [exact Hnd|].
      destruct (heap L !! ref0); exact Hnd.
  - destruct op as [pd a s st n n'|pd a s st n n'|]; simpl.
    + unfold executeBuy.
      destruct (getExecutionPrice pd a s BUY) as [p|]; [|exact Hs].
      destruct (negb (Js.truthyQ p)) eqn:Ep; [exact Hs|]. simpl.
      intros ref Hin. apply elem_of_app in Hin as [Hin|Hin].
      * destruct (Hs ref Hin) as (t & Ht & Hst). exists t. split; [|exact Hst].
        rewrite lookup_app_l by (by apply Hlt). exact Ht.
      * apply list_elem_of_singleton in Hin. subst ref.
        eexists. split; [apply list_lookup_middle; reflexivity|].
        split; [reflexivity|]. split; [|discriminate]. simpl.
        apply truthyQ_true. by apply negb_false_iff.
    + unfold executeSell.
      destruct (openPosition L) as [ref0|]; [|exact Hs].
      destruct (getExecutionPrice pd a s SELL) as [p|]; [|exact Hs].
      destruct (negb (Js.truthyQ p)) eqn:Ep; [exact Hs|].
      destruct (heap L !! ref0) as [t0|] eqn:E0; [|exact Hs]. simpl.
      intros ref Hin. destruct (Hs ref Hin) as (t & Ht & Hst).
      destruct (decide (ref = ref0)) as [->|Hne].
      * exists (closeTrade p n t0). split.
        -- apply list_lookup_insert_eq. by eapply lookup_lt_Some.
        -- rewrite E0 in Ht. injection Ht as ->.
           destruct Hst as (Hty & Hen & _).
           split; [exact Hty|]. split; [exact Hen|].
           simpl. intros x [= <-]. apply truthyQ_true.
           by apply negb_false_iff.
      * exists t. split; [|exact Hst].
        rewrite list_lookup_insert_ne by congruence. exact Ht.
    + intros ref H. inversion H.
Qed.

Lemma wellFormed_fold ops : forall L,
  wellFormed L -> wellFormed (fold_left step ops L).
Proof.
  induction ops as [|op ops IH]; intros L HL; simpl; [exact HL|].
  apply IH. by apply wellFormed_step.
Qed.

Lemma ledger_wellFormed_aux (ops : list Op) :
  let L := run ops in
  length (ledgerTrades L) = length (trades L) /\
  (forall t, t ∈ ledgerTrades L -> soundTrade t) /\
  openRecorded L.
Proof.
  intros L.
  destruct (wellFormed_fold ops initialLedger wellFormed_initial)
    as (_ & _ & Hs & Ho).
  fold (run ops) in Hs, Ho. fold L in Hs, Ho.
  unfold ledgerTrades. split; [|split; [|exact Ho]].
  - induction (trades L) as [|ref refs IH]; [reflexivity|].
    simpl. destruct (Hs ref) as (t & -> & _); [apply elem_of_cons; auto|].
    simpl. f_equal. apply IH. intros r Hr. apply Hs. apply elem_of_cons. auto.
  - intros t Ht. apply list_elem_of_omap in Ht as (ref & Hin & Hl).
    destruct (Hs ref Hin) as (t' & Ht' & Hst).
    rewrite Ht' in Hl. injection Hl as <-. exact Hst.
Qed.

(** X1. In every ledger reached by buys, sells and resets the counter is
    the number of recorded trades, the recorded references are distinct
    and point at trade objects, and every recorded trade is BUY-opened with
    a non-zero entry price and, once closed, a non-zero exit price. *)
Theorem ledger_wellFormed (ops : list Op) :
  let L := run ops in
  tradeCounter L = Z.of_nat (length (trades L)) /\
  NoDup (trades L) /\
  length (ledgerTrades L) = length (trades L) /\
  (forall t, t ∈ ledgerTrades L ->
     Trade.type t = BUY /\ ~ (Trade.entryPrice t == 0)%Q /\
     forall x, Trade.exitPrice t = Some x -> ~ (x == 0)%Q).
Proof.
  intros L.
  destruct (wellFormed_fold ops initialLedger wellFormed_initial)
    as (Hc & Hnd & Hs & _).
  fold (run ops) in Hc, Hnd, Hs. fold L in Hc, Hnd, Hs.
  split; [exact Hc|]. split; [exact Hnd|].
  unfold ledgerTrades. split.
  - clear Hnd Hc. induction (trades L) as [|ref refs IH]; [reflexivity|].
    simpl. destruct (Hs ref) as (t & -> & _); [apply elem_of_cons; auto|].
    simpl. f_equal. apply IH. intros r Hr. apply Hs. apply elem_of_cons. auto.
  - intros t Ht. apply list_elem_of_omap in Ht as (ref & Hin & Hl).
    destruct (Hs ref Hin) as (t' & Ht' & Hst).
    rewrite Ht' in Hl. injection Hl as <-. exact Hst.
Qed.

Lemma step_frozen L op ref t :
  heap L !! ref = Some t -> openPosition L <> Some ref ->
  heap (step L op) !! ref = Some t /\ openPosition (step L op) <> Some ref.
Proof.
  intros Hh Ho. pose proof (lookup_lt_Some _ _ _ Hh) as Hlt.
  destruct op as [pd a s st n n'|pd a s st n n'|]; simpl.
  - unfold executeBuy.
    destruct (getExecutionPrice pd a s BUY) as [p|]; [|auto].
    destruct (negb (Js.truthyQ p)); [auto|]. simpl. split.
    + rewrite lookup_app_l by exact Hlt. exact Hh.
    + intros [= E]. lia.
  - unfold executeSell.
    destruct (openPosition L) as [ref0|] eqn:Eo;
      [|simpl; rewrite Eo; auto].
    destruct (getExecutionPrice pd a s SELL) as [p|];
      [|simpl; rewrite Eo; auto].
    destruct (negb (Js.truthyQ p)); [simpl; rewrite Eo; auto|].
    destruct (heap L !! ref0) as [t0|]; [|simpl; rewrite Eo; auto]. simpl.
    split; [|discriminate].
    rewrite list_lookup_insert_ne by congruence. exact Hh.
  - split; [exact Hh|discriminate].
Qed.

Lemma step_trades_grow L op ref :
  isReset op = false -> ref ∈ trades L -> ref ∈ trades (step L op).
Proof.
  intros Hr Hin. destruct op as [pd a s st n n'|pd a s st n n'|];
    simpl; [| |discriminate Hr].
  - unfold executeBuy.
    destruct (getExecutionPrice pd a s BUY) as [p|]; [|exact Hin].
    destruct (negb (Js.truthyQ p)); [exact Hin|]. simpl.
    apply elem_of_app. auto.
  - unfold executeSell.
    destruct (openPosition L) as [ref0|]; [|exact Hin].
    destruct (getExecutionPrice pd a s SELL) as [p|]; [|exact Hin].
    destruct (negb (Js.truthyQ p)); [exact Hin|].
    destruct (heap L !! ref0); exact Hin.
Qed.

Lemma fold_frozen (ops : list Op) : forall (L : Ledger) (ref : nat) (t : Trade.t),
  heap L !! ref = Some t ->
  openPosition L <> Some ref ->
  heap (fold_left step ops L) !! ref = Some t /\
  openPosition (fold_left step ops L) <> Some ref /\
  (forallb (fun op => negb (isReset op)) ops = true ->
   ref ∈ trades L -> ref ∈ trades (fold_left step ops L)).
Proof.
  induction ops as [|op ops IH]; intros L ref t Hh Ho; simpl.
  - auto.
  - destruct (step_frozen L op ref t Hh Ho) as [Hh' Ho'].
    destruct (IH (step L op) ref t Hh' Ho') as (H1 & H2 & H3).
    split; [exact H1|]. split; [exact H2|].
    intros Hall Hin. apply andb_true_iff in Hall as [Hop Hall].
    apply H3; [exact Hall|]. apply step_trades_grow; [|exact Hin].
    by apply negb_true_iff.
Qed.

(** X2. A trade object that does not hold the open-position slot is
    never touched again: whatever buys, sells and resets follow, a closed
    trade keeps its prices and an open trade that lost the slot is never
    closed; unless a reset occurs it also stays in [trades]. *)
Theorem trade_outside_slot_frozen (ops : list Op) (L : Ledger) (ref : nat)
    (t : Trade.t) :
  heap L !! ref = Some t ->
  openPosition L <> Some ref ->
  let L' := fold_left step ops L in
  heap L' !! ref = Some t /\
  openPosition L' <> Some ref /\
  (forallb (fun op => negb (isReset op)) ops = true ->
   ref ∈ trades L -> ref ∈ trades L').
Proof.
  intros Hh Ho L'. by apply fold_frozen.
Qed.

(** X3. After two successful buys in a row the first trade is orphaned:
    it stays in the store with no exit price through every later sequence
    of operations, and in [trades] as long as no reset occurs. *)
Theorem replaced_open_trade_never_closed
    (L : Ledger) (pd1 pd2 : PoolData) (a1 s1 a2 s2 : Q) (st1 st2 : Strategy)
    (n1 n1' n2 n2' : Z) (p1 p2 : Q) (ops : list Op) :
  getExecutionPrice pd1 a1 s1 BUY = Some p1 -> ~ (p1 == 0)%Q ->
  getExecutionPrice pd2 a2 s2 BUY = Some p2 -> ~ (p2 == 0)%Q ->
  let L1 := snd (executeBuy pd1 a1 s1 st1 n1 n1' L) in
  let L2 := snd (executeBuy pd2 a2 s2 st2 n2 n2' L1) in
  let L' := fold_left step ops L2 in
  let ref := length (heap L) in
  openPosition L1 = Some ref /\
  exists t,
    heap L' !! ref = Some t /\
    Trade.entryPrice t = p1 /\ Trade.amount t = a1 /\
    Trade.exitPrice t = None /\
    openPosition L' <> Some ref /\
    (forallb (fun op => negb (isReset op)) ops = true -> ref ∈ trades L').
Proof.
  intros Hp1 Hz1 Hp2 Hz2 L1 L2 L' ref.
  destruct (executeBuy_success pd1 a1 s1 st1 n1 n1' L p1 Hp1 Hz1)
    as (t & E1 & _ & Ham & Hen & Hex & _).
  assert (L1 = {| heap := heap L ++ [t];
                  trades := trades L ++ [ref];
                  openPosition := Some ref;
                  tradeCounter := tradeCounter L + 1 |}) as EL1
    by (subst L1; rewrite E1; reflexivity).
  destruct (executeBuy_success pd2 a2 s2 st2 n2 n2' L1 p2 Hp2 Hz2)
    as (t2 & E2 & _).
  assert (L2 = {| heap := heap L1 ++ [t2];
                  trades := trades L1 ++ [length (heap L1)];
                  openPosition := Some (length (heap L1));
                  tradeCounter := tradeCounter L1 + 1 |}) as EL2
    by (subst L2; rewrite E2; reflexivity).
  split; [rewrite EL1; reflexivity|].
  assert (heap L2 !! ref = Some t) as Hh.
  { rewrite EL2, EL1. simpl. rewrite <- app_assoc.
    apply list_lookup_middle. reflexivity. }
  assert (openPosition L2 <> Some ref) as Ho.
  { rewrite EL2, EL1. simpl. rewrite length_app. simpl.
    intros [= E]. subst ref. lia. }
  destruct (fold_frozen ops L2 ref t Hh Ho) as (H1 & H2 & H3).
  exists t. repeat (split; [assumption|]).
  intros Hall. apply H3; [exact Hall|].
  rewrite EL2, EL1. simpl. apply elem_of_app. left.
  apply elem_of_app. right. apply list_elem_of_singleton. reflexivity.
Qed.

(** X4. A position is never closed twice: right after a sell that
    returned a trade, any further sell returns null and changes nothing. *)
Theorem executeSell_twice (L : Ledger) (pd pd' : PoolData)
    (a s a' s' : Q) (st st' : Strategy) (n1 n1' n2 n2' : Z) (t : Trade.t) :
  fst (executeSell pd a s st n1 n1' L) = Js.Ok (Some t) ->
  let L1 := snd (executeSell pd a s st n1 n1' L) in
  executeSell pd' a' s' st' n2 n2' L1 = (Js.Ok None, L1).
Proof.
  intros H L1.
  assert (openPosition L1 = None) as Ho.
  { subst L1. revert H. unfold executeSell.
    destruct (openPosition L) as [ref|] eqn:Eo; [|discriminate].
    destruct (getExecutionPrice pd a s SELL) as [p|]; [|discriminate].
    destruct (negb (Js.truthyQ p)); [discriminate|].
    destruct (heap L !! ref); [|discriminate]. reflexivity. }
  unfold executeSell. rewrite Ho. reflexivity.
Qed.

(** ** Performance summary *)

Lemma ratio_bounds (n m : nat) :
  (n <= m)%nat -> (0 < m)%nat -> (0 <= ratio n m /\ ratio n m <= 1)%Q.
Proof.
  intros Hnm Hm. unfold ratio.
  assert (0 < inject_Z (Z.of_nat m))%Q as Hm'.
  { change 0%Q with (inject_Z 0). rewrite <- Zlt_Qlt. lia. }
  split.
  - apply Qle_shift_div_l; [exact Hm'|].
    rewrite Qmult_0_l. change 0%Q with (inject_Z 0). rewrite <- Zle_Qle. lia.
  - apply Qle_shift_div_r; [exact Hm'|].
    rewrite Qmult_1_l. rewrite <- Zle_Qle. lia.
Qed.

Lemma ledgerTrades_length (L : Ledger) :
  (length (ledgerTrades L) <= length (trades L))%nat.
Proof.
  unfold ledgerTrades. induction (trades L) as [|ref refs IH]; simpl; [lia|].
  destruct (heap L !! ref); simpl.
  - apply le_n_S. exact IH.
  - apply le_S. exact IH.
Qed.

Lemma fold_sum_ext {A} (f g : A -> Q) (l : list A) (acc : Q) :
  (forall x, x ∈ l -> f x = g x) ->
  fold_left (fun sum x => (sum + f x)%Q) l acc =
  fold_left (fun sum x => (sum + g x)%Q) l acc.
Proof.
  revert acc. induction l as [|x l IH]; intros acc H; [reflexivity|].
  simpl. rewrite (H x) by (apply elem_of_cons; auto).
  apply IH. intros y Hy. apply H. apply elem_of_cons. auto.
Qed.

(** X5. For every ledger the summary is consistent: there are no more
    closed trades than trades, the open-position count is 0 or 1, the win
    rate lies between 0 and 1, and with no closed trade the win rate, the
    average price and the total PnL are 0 (no division by zero). *)
Theorem getPerformanceSummary_bounds (L : Ledger) :
  let S := getPerformanceSummary L in
  (Summary.closedTrades S <= Summary.totalTrades S)%nat /\
  (Summary.openPosition S <= 1)%nat /\
  (0 <= Summary.winRate S /\ Summary.winRate S <= 1)%Q /\
  (Summary.closedTrades S = 0%nat ->
   Summary.winRate S = 0%Q /\ Summary.averageExecutionPrice S = 0%Q /\
   Summary.totalPnL S = 0%Q).
Proof.
  intros S. subst S. unfold getPerformanceSummary. simpl.
  set (closed := List.filter isClosed (ledgerTrades L)).
  split; [|split; [|split]].
  - pose proof (filter_length_le isClosed (ledgerTrades L)).
    pose proof (ledgerTrades_length L). fold closed in H. lia.
  - destruct (openPosition L); lia.
  - destruct (Nat.ltb_spec 0 (length closed)) as [Hpos|Hz].
    + apply ratio_bounds; [|exact Hpos]. apply filter_length_le.
    + split; [apply Qle_refl|discriminate].
  - intros Hz. rewrite Hz. simpl.
    destruct closed; [|discriminate Hz]. repeat split.
Qed.

(** X6. In every reachable ledger each recorded trade is either closed or
    unclosed, so totalTrades = closedTrades + number of unclosed trades;
    the open-position count never exceeds the number of unclosed trades,
    and the total PnL is the sum of (exit - entry) * amount over the closed
    trades. *)
Theorem getPerformanceSummary_reachable (ops : list Op) :
  let L := run ops in
  let S := getPerformanceSummary L in
  Summary.totalTrades S
    = (Summary.closedTrades S + length (unclosedTrades L))%nat /\
  (Summary.openPosition S <= length (unclosedTrades L))%nat /\
  Summary.totalPnL S =
    fold_left
      (fun sum t =>
         (sum + (default 0%Q (Trade.exitPrice t) - Trade.entryPrice t)
                * Trade.amount t)%Q)
      (List.filter isClosed (ledgerTrades L)) 0%Q.
Proof.
  intros L S. subst S. unfold getPerformanceSummary, unclosedTrades. simpl.
  destruct (ledger_wellFormed_aux ops) as (Hlen & Hsound & Hopen).
  fold L in Hlen, Hsound, Hopen.
  split; [|split].
  - rewrite <- Hlen. clear.
    induction (ledgerTrades L) as [|t ts IH]; [reflexivity|].
    simpl. destruct (isClosed t); simpl; lia.
  - destruct (openPosition L) as [ref|] eqn:Eo; [|lia].
    destruct (Hopen ref Eo) as (Hin & t & Ht & Hx).
    assert (t ∈ ledgerTrades L) as Hint.
    { apply list_elem_of_omap. eauto. }
    assert (negb (isClosed t) = true) as Hneg
      by (unfold isClosed; rewrite Hx; reflexivity).
    clear -Hint Hneg. induction Hint as [t ts|t t' ts Hint IH]; simpl.
    + rewrite Hneg. simpl. lia.
    + destruct (negb (isClosed t')); simpl; [apply le_S|]; exact (IH Hneg).
  - assert (forall t, t ∈ List.filter isClosed (ledgerTrades L) ->
              calculatePnL t =
              ((default 0%Q (Trade.exitPrice t) - Trade.entryPrice t)
               * Trade.amount t)%Q) as Hpnl.
    { intros t Ht. apply list_elem_of_In, filter_In in Ht as [Ht Hc].
      apply list_elem_of_In in Ht.
      destruct (Hsound t Ht) as (Hty & _ & Hx).
      unfold isClosed in Hc. unfold calculatePnL.
      destruct (Trade.exitPrice t) as [x|]; [|discriminate Hc]. simpl.
      specialize (Hx x eq_refl). apply truthyQ_true in Hx. rewrite Hx, Hty.
      reflexivity. }
    by apply fold_sum_ext.
Qed.

Lemma omap_lookup_ext (h1 h2 : list Trade.t) (refs : list nat) :
  (forall ref, ref ∈ refs -> h1 !! ref = h2 !! ref) ->
  omap (fun ref => h1 !! ref) refs = omap (fun ref => h2 !! ref) refs.
Proof.
  induction refs as [|ref refs IH]; intros H; [reflexivity|].
  assert (omap (fun ref => h1 !! ref) refs = omap (fun ref => h2 !! ref) refs)
    as IH' by (apply IH; intros r Hr; apply H; apply elem_of_cons; auto).
  simpl. rewrite (H ref) by (apply elem_of_cons; auto).
  destruct (h2 !! ref); [f_equal|]; exact IH'.
Qed.

(** X7. On a reachable ledger a successful buy followed by a successful
    sell adds exactly one trade, closed, after the trades already there;
    the returned trade has PnL (exit - entry) * amount for the amount that
    was bought (the amount passed to the sell plays no part), and the
    summary gains one closed trade and that PnL. *)
Theorem buy_then_sell_realises
    (ops : list Op) (pd pd' : PoolData) (a s a' s' : Q) (st st' : Strategy)
    (n1 n2 n3 n4 : Z) (pin pout : Q) :
  getExecutionPrice pd a s BUY = Some pin -> ~ (pin == 0)%Q ->
  getExecutionPrice pd' a' s' SELL = Some pout -> ~ (pout == 0)%Q ->
  let L := run ops in
  let L1 := snd (executeBuy pd a s st n1 n2 L) in
  let r2 := executeSell pd' a' s' st' n3 n4 L1 in
  exists t tc,
    fst r2 = Js.Ok (Some t) /\
    calculatePnL t = ((pout - pin) * a)%Q /\
    calculatePnL tc = ((pout - pin) * a)%Q /\
    ledgerTrades (snd r2) = ledgerTrades L ++ [tc] /\
    openPosition (snd r2) = None /\
    Summary.closedTrades (getPerformanceSummary (snd r2))
      = S (Summary.closedTrades (getPerformanceSummary L)) /\
    Summary.totalPnL (getPerformanceSummary (snd r2))
      = (Summary.totalPnL (getPerformanceSummary L) + (pout - pin) * a)%Q.
Proof.
  intros Hin Hin0 Hout Hout0 L L1 r2.
  destruct (wellFormed_fold ops initialLedger wellFormed_initial)
    as (_ & _ & Hs & _).
  fold (run ops) in Hs. fold L in Hs.
  destruct (executeBuy_success pd a s st n1 n2 L pin Hin Hin0)
    as (t0 & E & Hty & Ham & Hen & Hex & _).
  assert (L1 = {| heap := heap L ++ [t0];
                  trades := trades L ++ [length (heap L)];
                  openPosition := Some (length (heap L));
                  tradeCounter := tradeCounter L + 1 |}) as EL1
    by (subst L1; rewrite E; reflexivity).
  pose proof Hout0 as Htr. apply truthyQ_true in Htr.
  assert (r2 = (Js.Ok (Some (closeTrade pout n4 (closeTrade pout n3 t0))),
                {| heap := <[length (heap L) := closeTrade pout n3 t0]>
                             (heap L ++ [t0]);
                   trades := trades L ++ [length (heap L)];
                   openPosition := None;
                   tradeCounter := tradeCounter L + 1 |})) as Er2.
  { subst r2. rewrite EL1. unfold executeSell. simpl.
    rewrite Hout, Htr. simpl.
    rewrite list_lookup_middle by reflexivity. reflexivity. }
  set (tc := closeTrade pout n3 t0).
  assert (calculatePnL tc = ((pout - pin) * a)%Q) as Hpnl.
  { unfold calculatePnL. simpl. rewrite Htr. simpl.
    rewrite Hty, Hen, Ham. reflexivity. }
  assert (ledgerTrades (snd r2) = ledgerTrades L ++ [tc]) as Hlt.
  { rewrite Er2. unfold ledgerTrades. simpl. rewrite omap_app. f_equal.
    - apply omap_lookup_ext. intros ref Href.
      destruct (Hs ref Href) as (t & Ht & _).
      pose proof (lookup_lt_Some _ _ _ Ht) as Hlt.
      rewrite list_lookup_insert_ne by lia.
      apply lookup_app_l. exact Hlt.
    - simpl. rewrite list_lookup_insert_eq; [reflexivity|].
      rewrite length_app. simpl. lia. }
  exists (closeTrade pout n4 tc), tc.
  split; [rewrite Er2; reflexivity|].
  split.
  { unfold calculatePnL. simpl. rewrite Htr. simpl.
    rewrite Hty, Hen, Ham. reflexivity. }
  split; [exact Hpnl|]. split; [exact Hlt|].
  split; [rewrite Er2; reflexivity|].
  unfold getPerformanceSummary. simpl. rewrite Hlt.
  rewrite List.filter_app. simpl.
  change (isClosed tc) with true. cbv iota.
  split.
  - rewrite length_app. simpl. lia.
  - rewrite fold_left_app. simpl. rewrite Hpnl. reflexivity.
Qed.

(** ** Execution price and the strategies of the caller *)

Lemma bucketPrice_or_nonzero (a b : option Q) (q : Q) :
  Js.or Js.truthyQ (Js.or Js.truthyQ a b) None = Some q -> ~ (q == 0)%Q.
Proof.
  unfold Js.or. intros H.
  repeat case_match; simplify_eq; by apply truthyQ_true.
Qed.

Lemma getExecutionPrice_nonzero pd a s d p :
  getExecutionPrice pd a s d = Some p -> ~ (p == 0)%Q.
Proof.
  unfold getExecutionPrice.
  destruct (length (Js.orObj (slippageBuckets pd) []) =? 0)%nat.
  - destruct (0 <? size (Js.orObj (prices pd) ∅))%nat; [|discriminate].
    apply bucketPrice_or_nonzero.
  - destruct (List.find _ _) as [b|].
    + apply bucketPrice_nonzero.
    + destruct (reduceClosest _ _ _) as [b|]; [|discriminate].
      apply bucketPrice_nonzero.
Qed.

(** X8. The execution price depends neither on the amount nor on the
    side, and is never zero when it resolves; so [executeBuy] opens a trade
    exactly when a price resolves, and throws with the ledger unchanged
    otherwise. *)
Theorem executeBuy_iff_price (pd : PoolData) (a s : Q) (st : Strategy)
    (n n' : Z) (L : Ledger) :
  (forall a' d d', getExecutionPrice pd a s d = getExecutionPrice pd a' s d') /\
  (forall p d, getExecutionPrice pd a s d = Some p -> ~ (p == 0)%Q) /\
  (forall p, getExecutionPrice pd a s SELL = Some p ->
     fst (executeBuy pd a s st n n' L) = Js.Ok (length (heap L)) /\
     length (trades (snd (executeBuy pd a s st n n' L)))
       = S (length (trades L))) /\
  (getExecutionPrice pd a s SELL = None ->
     executeBuy pd a s st n n' L =
       (Js.Throw "Unable to determine execution price for BUY", L)).
Proof.
  split; [reflexivity|]. split; [intros p d; apply getExecutionPrice_nonzero|].
  split.
  - intros p Hp.
    change (getExecutionPrice pd a s SELL) with (getExecutionPrice pd a s BUY)
      in Hp.
    destruct (executeBuy_success pd a s st n n' L p Hp
                (getExecutionPrice_nonzero _ _ _ _ _ Hp)) as (t & E & _).
    rewrite E. simpl. split; [reflexivity|].
    rewrite length_app. simpl. lia.
  - intros Hp.
    change (getExecutionPrice pd a s SELL) with (getExecutionPrice pd a s BUY)
      in Hp.
    unfold executeBuy. rewrite Hp. reflexivity.
Qed.

Lemma executeSell_after_sell_state pd a s st n n' L :
  openPosition L = None ->
  executeSell pd a s st n n' L = (Js.Ok None, L).
Proof. intros H. unfold executeSell. rewrite H. reflexivity. Qed.

Lemma executeSell_cases pd a s st n n' L :
  (exists msg, executeSell pd a s st n n' L = (Js.Throw msg, L)) \/
  (exists r, fst (executeSell pd a s st n n' L) = Js.Ok r /\
             openPosition (snd (executeSell pd a s st n n' L)) = None).
Proof.
  unfold executeSell.
  destruct (openPosition L) as [ref|] eqn:Eo.
  - destruct (getExecutionPrice pd a s SELL) as [p|]; [|left; eauto].
    destruct (negb (Js.truthyQ p)); [left; eauto|].
    destruct (heap L !! ref); [|left; eauto].
    right. eexists. split; reflexivity.
  - right. eexists. split; [reflexivity|exact Eo].
Qed.

Lemma sellChunks_two pd chunk s st clock L :
  snd (sellChunks 2 0 pd chunk s st clock L) =
  snd (executeSell pd chunk s st (clock 0%nat) (clock 1%nat) L).
Proof.
  simpl.
  destruct (executeSell_cases pd chunk s st (clock 0%nat) (clock 1%nat) L)
    as [[msg E]|(r & Er & Ho)].
  - rewrite E. reflexivity.
  - destruct (executeSell pd chunk s st (clock 0%nat) (clock 1%nat) L)
      as [r1 L1] eqn:E1.
    simpl in Er, Ho. subst r1. simpl.
    rewrite (executeSell_after_sell_state _ _ _ _ _ _ _ Ho). reflexivity.
Qed.

Lemma buyChunks_two pd chunk s st clock L p :
  getExecutionPrice pd chunk s BUY = Some p ->
  exists t1 t2,
    buyChunks 2 0 pd chunk s st clock L =
      (Js.Ok tt,
       {| heap := heap L ++ [t1; t2];
          trades := trades L ++ [length (heap L); S (length (heap L))];
          openPosition := Some (S (length (heap L)));
          tradeCounter := tradeCounter L + 1 + 1 |}) /\
    Trade.type t1 = BUY /\ Trade.type t2 = BUY /\
    Trade.amount t1 = chunk /\ Trade.amount t2 = chunk /\
    Trade.entryPrice t1 = p /\ Trade.entryPrice t2 = p /\
    Trade.exitPrice t1 = None /\ Trade.exitPrice t2 = None.
Proof.
  intros Hp.
  pose proof (getExecutionPrice_nonzero _ _ _ _ _ Hp) as Hz.
  destruct (executeBuy_success pd chunk s st (clock 0%nat) (clock 1%nat) L p
              Hp Hz) as (t1 & E1 & Ht1 & Ha1 & He1 & Hx1 & _).
  set (L1 := {| heap := heap L ++ [t1];
                trades := trades L ++ [length (heap L)];
                openPosition := Some (length (heap L));
                tradeCounter := tradeCounter L + 1 |}).
  destruct (executeBuy_success pd chunk s st (clock 2%nat) (clock 3%nat) L1 p
              Hp Hz) as (t2 & E2 & Ht2 & Ha2 & He2 & Hx2 & _).
  exists t1, t2. split; [|auto 10].
  simpl. rewrite E1. fold L1. rewrite E2. simpl.
  rewrite <- !app_assoc. simpl. rewrite length_app. simpl.
  replace (length (heap L) + 1)%nat with (S (length (heap L))) by lia.
  reflexivity.
Qed.

(** X9. Under strategy B the second sell of the loop never does
    anything: the ledger after a SELL signal is the ledger after a single
    [executeSell], so at most one trade is closed however many chunks were
    bought. *)
Theorem strategyB_sell_is_single_sell (appConfig cfg : TradingConfig)
    (pd : PoolData) (slope deltaSlope : option Q) (clock : nat -> Z)
    (e : Engine) (L : Ledger) :
  strategy appConfig = StrategyB ->
  config e = Some cfg ->
  executeStrategy appConfig SELL pd slope deltaSlope clock e L =
    (Js.Ok tt,
     snd (executeSell pd (tradeSize appConfig / 2) (slippageThresholdB cfg)
            StrategyB (clock 0%nat) (clock 1%nat) L)).
Proof.
  intros Hst Hc. unfold executeStrategy, getSlippageThreshold.
  rewrite Hst, Hc. cbv beta iota zeta. f_equal.
  apply sellChunks_two.
Qed.

(** X10. Under strategy B a BUY signal is all or nothing: when the price
    at threshold B resolves it opens two trades of half the trade size
    each at that price, the second one holding the open-position slot;
    when it does not, the ledger is unchanged.  Nothing is thrown. *)
Theorem strategyB_buy_two_chunks (appConfig cfg : TradingConfig)
    (pd : PoolData) (slope deltaSlope : option Q) (clock : nat -> Z)
    (e : Engine) (L : Ledger) :
  strategy appConfig = StrategyB ->
  config e = Some cfg ->
  let size := tradeSize appConfig in
  let r := executeStrategy appConfig BUY pd slope deltaSlope clock e L in
  fst r = Js.Ok tt /\
  (getExecutionPrice pd size (slippageThresholdB cfg) BUY = None ->
   snd r = L) /\
  (forall p,
     getExecutionPrice pd size (slippageThresholdB cfg) BUY = Some p ->
     exists t1 t2,
       heap (snd r) = heap L ++ [t1; t2] /\
       trades (snd r) = trades L ++ [length (heap L); S (length (heap L))] /\
       openPosition (snd r) = Some (S (length (heap L))) /\
       Trade.amount t1 = (size / 2)%Q /\ Trade.amount t2 = (size / 2)%Q /\
       (Trade.amount t1 + Trade.amount t2 == size)%Q /\
       Trade.entryPrice t1 = p /\ Trade.entryPrice t2 = p /\
       Trade.exitPrice t1 = None /\ Trade.exitPrice t2 = None).
Proof.
  intros Hst Hc size r. subst r.
  unfold executeStrategy, getSlippageThreshold. rewrite Hst, Hc.
  cbv beta iota zeta.
  split; [reflexivity|].
  change (inject_Z (Z.of_nat getChunkCount)) with (inject_Z 2).
  set (chunk := (tradeSize appConfig / inject_Z 2)%Q).
  split.
  - intros Hp.
    change (getExecutionPrice pd size (slippageThresholdB cfg) BUY)
      with (getExecutionPrice pd chunk (slippageThresholdB cfg) BUY) in Hp.
    simpl. unfold executeBuy. rewrite Hp. reflexivity.
  - intros p Hp.
    change (getExecutionPrice pd size (slippageThresholdB cfg) BUY)
      with (getExecutionPrice pd chunk (slippageThresholdB cfg) BUY) in Hp.
    destruct (buyChunks_two pd chunk (slippageThresholdB cfg) StrategyB clock
                L p Hp)
      as (t1 & t2 & E & _ & _ & Ha1 & Ha2 & He1 & He2 & Hx1 & Hx2).
    change getChunkCount with 2%nat. rewrite E. simpl.
    exists t1, t2.
    do 3 (split; [reflexivity|]).
    split; [exact Ha1|]. split; [exact Ha2|].
    split; [rewrite Ha1, Ha2; subst chunk size; field|].
    split; [exact He1|]. split; [exact He2|]. split; [exact Hx1|exact Hx2].
Qed.

(** X11. [executeStrategy] throws only when the engine was never
    initialised, a TypeError raised before the ledger is touched; with a
    configuration it always returns normally, and a price that does not
    resolve leaves the ledger unchanged under either strategy and
    signal. *)
Theorem executeStrategy_errors (appConfig : TradingConfig) (signal : Signal)
    (pd : PoolData) (slope deltaSlope : option Q) (clock : nat -> Z)
    (e : Engine) (L : Ledger) :
  (config e = None ->
   executeStrategy appConfig signal pd slope deltaSlope clock e L
     = (Js.Throw "TypeError", L)) /\
  (forall cfg, config e = Some cfg ->
     let slippage :=
       match strategy appConfig with
       | StrategyA => slippageThresholdA cfg
       | StrategyB => slippageThresholdB cfg
       end in
     fst (executeStrategy appConfig signal pd slope deltaSlope clock e L)
       = Js.Ok tt /\
     (getExecutionPrice pd (tradeSize appConfig) slippage signal = None ->
      snd (executeStrategy appConfig signal pd slope deltaSlope clock e L)
        = L)).
Proof.
  split.
  - intros Hc. unfold executeStrategy, getSlippageThreshold. rewrite Hc.
    reflexivity.
  - intros cfg Hc slippage. unfold executeStrategy, getSlippageThreshold.
    rewrite Hc. subst slippage.
    destruct (strategy appConfig), signal; cbv beta iota zeta;
      (split; [reflexivity|]); intros Hp.
    + unfold executeBuy. rewrite Hp. reflexivity.
    + unfold executeSell. destruct (openPosition L); [|reflexivity].
      rewrite Hp. reflexivity.
    + simpl. unfold executeBuy.
      change (getExecutionPrice pd _ (slippageThresholdB cfg) BUY)
        with (getExecutionPrice pd (tradeSize appConfig)
                (slippageThresholdB cfg) BUY).
      rewrite Hp. reflexivity.
    + rewrite sellChunks_two.
      unfold executeSell. destruct (openPosition L); [|reflexivity].
      change (getExecutionPrice pd _ (slippageThresholdB cfg) SELL)
        with (getExecutionPrice pd (tradeSize appConfig)
                (slippageThresholdB cfg) SELL).
      rewrite Hp. reflexivity.
Qed.

(** X12. Under strategy B a BUY signal followed by a SELL signal closes
    only the second chunk: the first chunk, half of the position, is left
    open with no open-position reference to it, and no later operation
    ever closes it. *)
Theorem strategyB_round_trip_leaves_half_open
    (appConfig cfg : TradingConfig) (pd pd' : PoolData)
    (slope deltaSlope slope' deltaSlope' : option Q) (clock clock' : nat -> Z)
    (e : Engine) (L : Ledger) (p p' : Q) (ops : list Op) :
  strategy appConfig = StrategyB ->
  config e = Some cfg ->
  getExecutionPrice pd (tradeSize appConfig) (slippageThresholdB cfg) BUY
    = Some p ->
  getExecutionPrice pd' (tradeSize appConfig) (slippageThresholdB cfg) SELL
    = Some p' ->
  let L1 := snd (executeStrategy appConfig BUY pd slope deltaSlope clock e L) in
  let L2 :=
    snd (executeStrategy appConfig SELL pd' slope' deltaSlope' clock' e L1) in
  exists t1 t2,
    heap L2 = heap L ++ [t1; t2] /\
    trades L2 = trades L ++ [length (heap L); S (length (heap L))] /\
    openPosition L2 = None /\
    Trade.amount t1 = (tradeSize appConfig / 2)%Q /\
    Trade.exitPrice t1 = None /\
    Trade.amount t2 = (tradeSize appConfig / 2)%Q /\
    Trade.exitPrice t2 = Some p' /\
    calculatePnL t2 = ((p' - p) * (tradeSize appConfig / 2))%Q /\
    heap (fold_left step ops L2) !! length (heap L) = Some t1.
Proof.
  intros Hst Hc Hp Hp' L1 L2.
  set (chunk := (tradeSize appConfig / inject_Z 2)%Q).
  change (getExecutionPrice pd (tradeSize appConfig)
            (slippageThresholdB cfg) BUY)
    with (getExecutionPrice pd chunk (slippageThresholdB cfg) BUY) in Hp.
  change (getExecutionPrice pd' (tradeSize appConfig)
            (slippageThresholdB cfg) SELL)
    with (getExecutionPrice pd' chunk (slippageThresholdB cfg) SELL) in Hp'.
  destruct (buyChunks_two pd chunk (slippageThresholdB cfg) StrategyB clock
              L p Hp)
    as (t1 & t2 & E & Ht1 & Ht2 & Ha1 & Ha2 & He1 & He2 & Hx1 & Hx2).
  assert (L1 = {| heap := heap L ++ [t1; t2];
                  trades := trades L ++ [length (heap L); S (length (heap L))];
                  openPosition := Some (S (length (heap L)));
                  tradeCounter := tradeCounter L + 1 + 1 |}) as EL1.
  { subst L1. unfold executeStrategy, getSlippageThreshold.
    rewrite Hst, Hc. cbv beta iota zeta.
    change (inject_Z (Z.of_nat getChunkCount)) with (inject_Z 2).
    change getChunkCount with 2%nat. fold chunk. rewrite E. reflexivity. }
  pose proof (getExecutionPrice_nonzero _ _ _ _ _ Hp') as Hz'.
  pose proof Hz' as Htr. apply truthyQ_true in Htr.
  set (tc := closeTrade p' (clock' 0%nat) t2).
  assert (L2 = {| heap := heap L ++ [t1; tc];
                  trades := trades L ++ [length (heap L); S (length (heap L))];
                  openPosition := None;
                  tradeCounter := tradeCounter L + 1 + 1 |}) as EL2.
  { subst L2. unfold executeStrategy, getSlippageThreshold.
    rewrite Hst, Hc. cbv beta iota zeta.
    change (inject_Z (Z.of_nat getChunkCount)) with (inject_Z 2).
    change getChunkCount with 2%nat. fold chunk.
    rewrite sellChunks_two. rewrite EL1. unfold executeSell. simpl.
    rewrite Hp', Htr. simpl.
    replace ((heap L ++ [t1; t2]) !! S (length (heap L))) with (Some t2).
    - simpl. f_equal.
      change [t1; t2] with ([t1] ++ [t2]). change [t1; tc] with ([t1] ++ [tc]).
      rewrite !app_assoc.
      replace (S (length (heap L))) with (length (heap L ++ [t1]) + 0)%nat
        by (rewrite length_app; simpl; lia).
      rewrite insert_app_r. reflexivity.
    - symmetry. change [t1; t2] with ([t1] ++ [t2]). rewrite app_assoc.
      apply list_lookup_middle. rewrite length_app. simpl. lia. }
  exists t1, tc. rewrite EL2. simpl.
  do 3 (split; [reflexivity|]).
  split; [exact Ha1|]. split; [exact Hx1|]. split; [exact Ha2|].
  split; [reflexivity|]. split.
  - unfold calculatePnL. simpl. rewrite Htr. simpl.
    rewrite Ht2, He2, Ha2. reflexivity.
  - rewrite <- EL2.
    apply (fold_frozen ops L2 (length (heap L)) t1).
    + rewrite EL2. simpl. apply list_lookup_middle. reflexivity.
    + rewrite EL2. simpl. discriminate.
Qed.

(** ** The snapshot built by the extractor *)

Lemma lowerAscii_idem (c : ascii) : lowerAscii (lowerAscii c) = lowerAscii c.
Proof.
  destruct c as [[] [] [] [] [] [] [] []]; vm_compute; reflexivity.
Qed.

Lemma toLowerCase_idem (s : string) : toLowerCase (toLowerCase s) = toLowerCase s.
Proof.
  induction s as [|c s IH]; simpl; [reflexivity|].
  rewrite lowerAscii_idem, IH. reflexivity.
Qed.

Lemma toLowerCase_empty (s : string) : toLowerCase s = "" -> s = "".
Proof. destruct s; [reflexivity|discriminate]. Qed.

Lemma isSupportedToken_iff (s : string) :
  isSupportedToken s = true <->
  toLowerCase s = USDT_ADDRESS \/ toLowerCase s = WETH_ADDRESS.
Proof.
  unfold isSupportedToken, Js.truthyS.
  change (toLowerCase USDT_ADDRESS) with USDT_ADDRESS.
  change (toLowerCase WETH_ADDRESS) with WETH_ADDRESS.
  destruct (String.eqb_spec s "") as [->|Hne]; simpl.
  - split; [discriminate|]. intros [H|H]; discriminate H.
  - rewrite orb_true_iff, !String.eqb_eq. reflexivity.
Qed.

(** X13. [isSupportedToken] accepts exactly the strings that are the
    USDT or the WETH address up to ASCII case; it ignores case and rejects
    the empty string. *)
Theorem isSupportedToken_spec (s : string) :
  (isSupportedToken s = true <->
   toLowerCase s = USDT_ADDRESS \/ toLowerCase s = WETH_ADDRESS) /\
  isSupportedToken (toLowerCase s) = isSupportedToken s /\
  isSupportedToken "" = false.
Proof.
  pose proof isSupportedToken_iff as Hiff.
  split; [apply Hiff|]. split; [|reflexivity].
  destruct (isSupportedToken s) eqn:E.
  - apply Hiff. rewrite toLowerCase_idem. by apply Hiff.
  - destruct (isSupportedToken (toLowerCase s)) eqn:E'; [|reflexivity].
    apply Hiff in E'. rewrite toLowerCase_idem in E'.
    apply Hiff in E'. congruence.
Qed.

Lemma or_truthyS_nonempty (a : option string) (d : string) :
  d <> "" -> default d (Js.or Js.truthyS a (Some d)) <> "".
Proof.
  intros Hd. unfold Js.or, Js.truthyS.
  destruct a as [x|]; simpl; [|exact Hd].
  destruct (String.eqb_spec x ""); simpl; [exact Hd|assumption].
Qed.

(** X14. Every snapshot that [extractPoolData] returns has both token
    addresses equal to USDT or WETH up to case and a non-empty pool
    address; its direction is BtoA, with the B-to-A table, exactly when
    token A is USDT and token B is WETH, and AtoB with the A-to-B table in
    every other case (WETH/USDT, but also WETH/WETH and USDT/USDT); its
    prices map is built from the table it carries. *)
Theorem extractPoolData_snapshot (decodedMessage : Msg.Decoded) (now : Z)
    (pd : PoolData) :
  extractPoolData decodedMessage now = Some pd ->
  let A := toLowerCase (addressA pd) in
  let B := toLowerCase (addressB pd) in
  (A = USDT_ADDRESS \/ A = WETH_ADDRESS) /\
  (B = USDT_ADDRESS \/ B = WETH_ADDRESS) /\
  poolAddress pd <> "" /\
  (isUSDTtoWETH pd = true <-> A = USDT_ADDRESS /\ B = WETH_ADDRESS) /\
  (isWETHtoUSDT pd = true <-> A = WETH_ADDRESS /\ B = USDT_ADDRESS) /\
  (direction pd = BtoA <-> A = USDT_ADDRESS /\ B = WETH_ADDRESS) /\
  slippageBuckets pd =
    Some (match direction pd with
          | BtoA => btoAOf decodedMessage
          | AtoB => atoBOf decodedMessage
          end) /\
  prices pd =
    Some (buildPrices (match direction pd with
                       | BtoA => btoAOf decodedMessage
                       | AtoB => atoBOf decodedMessage
                       end)).
Proof.
  unfold extractPoolData.
  set (cA := currencyAddress _). set (cB := currencyAddress _).
  destruct (isSupportedToken cA) eqn:HA; [|discriminate].
  destruct (isSupportedToken cB) eqn:HB; [|discriminate].
  simpl negb. cbv iota. simpl orb. cbv iota.
  change (toLowerCase USDT_ADDRESS) with USDT_ADDRESS.
  change (toLowerCase WETH_ADDRESS) with WETH_ADDRESS.
  apply isSupportedToken_iff in HA, HB.
  assert (USDT_ADDRESS <> WETH_ADDRESS) as Hne by discriminate.
  assert (default "unknown"
            (Js.or Js.truthyS
               (Js.or Js.truthyS
                  (Js.or Js.truthyS
                     (Msg.SmartContract
                        (Js.orObj
                           (Js.or always (Msg.Pool decodedMessage)
                              (Msg.pool decodedMessage))
                           (Msg.Build_PoolObj None None None None None None)))
                     (Msg.smartContract
                        (Js.orObj
                           (Js.or always (Msg.Pool decodedMessage)
                              (Msg.pool decodedMessage))
                           (Msg.Build_PoolObj None None None None None None))))
                  (Msg.poolAddress decodedMessage))
               (Some "unknown")) <> "") as Hpool
    by (apply or_truthyS_nonempty; discriminate).
  destruct (String.eqb_spec (toLowerCase cA) USDT_ADDRESS) as [EA|NA];
    destruct (String.eqb_spec (toLowerCase cB) WETH_ADDRESS) as [EB|NB];
    destruct (String.eqb_spec (toLowerCase cA) WETH_ADDRESS) as [EA'|NA'];
    destruct (String.eqb_spec (toLowerCase cB) USDT_ADDRESS) as [EB'|NB'];
    simpl; intros [= <-]; simpl;
    (split; [exact HA|]); (split; [exact HB|]); (split; [exact Hpool|]);
    repeat split; try discriminate; try tauto; try congruence;
    intros [? ?]; congruence.
Qed.

Lemma last_cons_default {A} (x : A) (l : list A) :
  last (x :: l) = match last l with Some y => Some y | None => Some x end.
Proof.
  destruct l as [|y l]; [reflexivity|].
  change (last (x :: y :: l)) with (last (y :: l)).
  destruct (last (y :: l)) eqn:E; [reflexivity|].
  apply last_None in E. discriminate E.
Qed.

Lemma buildPrices_fold (buckets : list Bucket) : forall (m : gmap Z Q) (k : Z),
  fold_left
    (fun prices bucket =>
       let bp := bucketBp bucket in
       match bucketPrice bucket with
       | Some price => <[bp := price]> prices
       | None => prices
       end) buckets m !! k =
  match lastPriced k buckets with
  | Some q => Some q
  | None => m !! k
  end.
Proof.
  unfold lastPriced.
  induction buckets as [|b bs IH]; intros m k; [reflexivity|].
  cbn [fold_left]. rewrite IH.
  change (omap ?f (b :: bs)) with
    (match f b with Some y => y :: omap f bs | None => omap f bs end).
  cbv beta.
  destruct (Z.eqb_spec (bucketBp b) k) as [->|Hne].
  - destruct (bucketPrice b) as [q|] eqn:Eq.
    + rewrite last_cons_default.
      destruct (last _); [reflexivity|]. apply lookup_insert_eq.
    + reflexivity.
  - destruct (last _); [reflexivity|].
    destruct (bucketPrice b); [|reflexivity].
    by rewrite lookup_insert_ne.
Qed.

Lemma buildPrices_lastPriced (buckets : list Bucket) (k : Z) :
  buildPrices buckets !! k = lastPriced k buckets.
Proof.
  unfold buildPrices. rewrite buildPrices_fold.
  rewrite lookup_empty. by destruct (lastPriced k buckets).
Qed.

(** X15. The prices map of a table holds, at each basis-point value, the
    price of the last bucket of the table with that value and a non-zero
    price, and nothing where no such bucket exists: a later bucket
    overwrites an earlier one, a bucket without price leaves the entry
    alone. *)
Theorem buildPrices_lookup (buckets : list Bucket) (k : Z) :
  buildPrices buckets !! k = lastPriced k buckets /\
  (buildPrices buckets !! k = None <->
   forall b, b ∈ buckets -> bucketBp b = k -> bucketPrice b = None).
Proof.
  pose proof (buildPrices_lastPriced buckets k) as E.
  split; [exact E|]. rewrite E. unfold lastPriced. rewrite last_None.
  split.
  - intros Hnil b Hb Hk. destruct (bucketPrice b) as [q|] eqn:Eq; [|reflexivity].
    assert (q ∈ omap (fun b => if bucketBp b =? k then bucketPrice b else None)
                  buckets) as Hin.
    { apply list_elem_of_omap. exists b. split; [exact Hb|].
      apply Z.eqb_eq in Hk. rewrite Hk. exact Eq. }
    rewrite Hnil in Hin. inversion Hin.
  - intros Hall.
    destruct (omap _ buckets) as [|q qs] eqn:Eo; [reflexivity|].
    assert (q ∈ q :: qs) as Hin by (apply elem_of_cons; auto).
    rewrite <- Eo in Hin. apply list_elem_of_omap in Hin as (b & Hb & Hq).
    destruct (Z.eqb_spec (bucketBp b) k) as [Hk|]; [|discriminate].
    rewrite (Hall b Hb Hk) in Hq. discriminate.
Qed.

Lemma omap_all_None {A B} (f : A -> option B) (l : list A) :
  (forall x, x ∈ l -> f x = None) -> omap f l = [].
Proof.
  induction l as [|x l IH]; intros H; [reflexivity|].
  change (omap f (x :: l)) with
    (match f x with Some z => z :: omap f l | None => omap f l end).
  rewrite (H x) by (apply elem_of_cons; auto).
  apply IH. intros y Hy. apply H. apply elem_of_cons. auto.
Qed.

Lemma lastPriced_unique (buckets : list Bucket) (b : Bucket) :
  NoDup (map bucketBp buckets) -> b ∈ buckets ->
  lastPriced (bucketBp b) buckets = bucketPrice b.
Proof.
  unfold lastPriced. induction buckets as [|x bs IH]; intros Hnd Hin.
  - inversion Hin.
  - change (omap ?f (x :: bs)) with
      (match f x with Some y => y :: omap f bs | None => omap f bs end).
    cbv beta. simpl in Hnd. apply NoDup_cons in Hnd as [Hx Hnd].
    apply elem_of_cons in Hin as [->|Hin].
    + rewrite Z.eqb_refl.
      rewrite (omap_all_None _ bs).
      * by destruct (bucketPrice x).
      * intros y Hy.
        destruct (Z.eqb_spec (bucketBp y) (bucketBp x)) as [E|_];
          [|reflexivity].
        exfalso. apply Hx. rewrite <- E. apply list_elem_of_fmap. eauto.
    + destruct (Z.eqb_spec (bucketBp x) (bucketBp b)) as [E|_].
      * exfalso. apply Hx. rewrite E.
        apply list_elem_of_fmap. eauto.
      * by apply IH.
Qed.

Lemma extractPoolData_tables decodedMessage now pd :
  extractPoolData decodedMessage now = Some pd ->
  exists buckets,
    slippageBuckets pd = Some buckets /\ prices pd = Some (buildPrices buckets).
Proof.
  unfold extractPoolData.
  destruct (negb (isSupportedToken _) || negb (isSupportedToken _));
    [discriminate|].
  destruct (String.eqb _ _ && String.eqb _ _);
    [|destruct (String.eqb _ _ && String.eqb _ _)];
    intros [= <-]; eexists; split; reflexivity.
Qed.

Lemma getExecutionPrice_exact pd a s d buckets b :
  slippageBuckets pd = Some buckets ->
  NoDup (map bucketBp buckets) -> b ∈ buckets ->
  bucketBp b = Math_round (s * 10000) ->
  getExecutionPrice pd a s d = bucketPrice b.
Proof.
  intros Hb Hnd Hin Hbp. unfold getExecutionPrice. rewrite Hb. simpl.
  apply list_elem_of_split in Hin as (pre & post & ->).
  rewrite length_app. simpl.
  replace (length pre + S (length post) =? 0)%nat with false
    by (symmetry; apply Nat.eqb_neq; lia).
  rewrite (find_first _ pre post b); [reflexivity| |].
  - apply Z.eqb_eq. exact Hbp.
  - intros x Hx. apply Z.eqb_neq. rewrite <- Hbp. intros E.
    rewrite map_app in Hnd. simpl in Hnd.
    apply NoDup_app in Hnd as (_ & Hdis & _).
    apply (Hdis (bucketBp x)).
    + apply list_elem_of_fmap. eauto.
    + rewrite E. apply elem_of_cons. auto.
Qed.

(** X16. On a snapshot made by the extractor whose table has pairwise
    distinct basis points, the two price lookups of the system agree: when
    a bucket matches the requested slippage exactly, [getExecutionPrice]
    returns what the flat prices map holds at that basis-point value. *)
Theorem getExecutionPrice_agrees_with_prices
    (decodedMessage : Msg.Decoded) (now : Z) (pd : PoolData)
    (buckets : list Bucket) (b : Bucket) (a s : Q) (d : Signal) :
  extractPoolData decodedMessage now = Some pd ->
  slippageBuckets pd = Some buckets ->
  NoDup (map bucketBp buckets) ->
  b ∈ buckets ->
  bucketBp b = Math_round (s * 10000) ->
  getExecutionPrice pd a s d = Js.orObj (prices pd) ∅ !! Math_round (s * 10000).
Proof.
  intros He Hb Hnd Hin Hbp.
  destruct (extractPoolData_tables _ _ _ He) as (bs & Hbs & Hp).
  rewrite Hb in Hbs. injection Hbs as <-.
  rewrite (getExecutionPrice_exact pd a s d buckets b Hb Hnd Hin Hbp).
  rewrite Hp. simpl. rewrite <- Hbp.
  rewrite buildPrices_lastPriced.
  symmetry. by apply lastPriced_unique.
Qed.

(** X17. The slope is the one the source comment names: on a snapshot
    made by the extractor with pairwise distinct basis points and buckets
    at 10 and 100, [calculateSlope] is (P1 - P01) / P01 where P01 and P1
    are the execution prices at 0.1% and at 1% slippage. *)
Theorem calculateSlope_of_execution_prices
    (decodedMessage : Msg.Decoded) (now : Z) (pd : PoolData)
    (buckets : list Bucket) (b01 b1 : Bucket) (a a' : Q) (d d' : Signal)
    (p01 p1 : Q) :
  extractPoolData decodedMessage now = Some pd ->
  slippageBuckets pd = Some buckets ->
  NoDup (map bucketBp buckets) ->
  b01 ∈ buckets -> bucketBp b01 = 10 ->
  b1 ∈ buckets -> bucketBp b1 = 100 ->
  getExecutionPrice pd a (1 # 1000) d = Some p01 ->
  getExecutionPrice pd a' (1 # 100) d' = Some p1 ->
  calculateSlope pd = Some ((p1 - p01) / p01)%Q.
Proof.
  intros He Hb Hnd Hin01 Hbp01 Hin1 Hbp1 H01 H1.
  destruct (extractPoolData_tables _ _ _ He) as (bs & Hbs & Hp).
  rewrite Hb in Hbs. injection Hbs as <-.
  assert (bucketBp b01 = Math_round ((1 # 1000) * 10000)) as Hr01
    by (rewrite Hbp01; reflexivity).
  assert (bucketBp b1 = Math_round ((1 # 100) * 10000)) as Hr1
    by (rewrite Hbp1; reflexivity).
  rewrite (getExecutionPrice_exact pd a _ d buckets b01 Hb Hnd Hin01 Hr01)
    in H01.
  rewrite (getExecutionPrice_exact pd a' _ d' buckets b1 Hb Hnd Hin1 Hr1)
    in H1.
  assert (buildPrices buckets !! 10 = Some p01) as L01.
  { rewrite buildPrices_lastPriced.
    rewrite <- Hbp01. rewrite lastPriced_unique by assumption. exact H01. }
  assert (buildPrices buckets !! 100 = Some p1) as L1.
  { rewrite buildPrices_lastPriced.
    rewrite <- Hbp1. rewrite lastPriced_unique by assumption. exact H1. }
  pose proof (bucketPrice_nonzero _ _ H01) as Hz01.
  pose proof (bucketPrice_nonzero _ _ H1) as Hz1.
  apply truthyQ_true in Hz01, Hz1.
  unfold Js.truthyQ in Hz01, Hz1. apply negb_true_iff in Hz01, Hz1.
  unfold calculateSlope. rewrite Hp. simpl. rewrite !or_same, L01, L1.
  unfold truthyPrice, Js.truthyQ. rewrite !Hz01, !Hz1. simpl.
  rewrite !Hz01, ?Hz1. reflexivity.
Qed.

(** ** The pipeline and its history *)

Lemma pushShift_last h r : last (pushShift h r) = Some r.
Proof.
  destruct (pushShift_snoc h r) as [h' ->]. apply last_snoc.
Qed.

Lemma pushedRecord_deltaSlope pd s now p sh :
  SlopeRecord.deltaSlope (pushedRecord pd s now (historyOf sh p))
  = default 0%Q (calculateDeltaSlope p s sh).
Proof.
  unfold pushedRecord, calculateDeltaSlope. fold (historyOf sh p). simpl.
  destruct (historyOf sh p) as [|x h]; [reflexivity|].
  change (length (x :: h) =? 0)%nat with false.
  change (0 <? length (x :: h))%nat with true. cbv iota.
  destruct ((x :: h) !! (length (x :: h) - 1)%nat) as [r|] eqn:E;
    [reflexivity|].
  apply lookup_ge_None in E. simpl in E. lia.
Qed.

(** X18. [processPoolData] has no effect on the engine when the record
    is filtered out or its slope does not resolve, and the first resolved
    observation of a pool never carries a signal or a delta, whether or
    not the engine has been initialised. *)
Theorem processPoolData_quiet (decodedMessage : Msg.Decoded) (now now' : Z)
    (e : Engine) :
  (extractPoolData decodedMessage now = None ->
   processPoolData decodedMessage now now' e = (Js.Ok None, e)) /\
  (forall pd, extractPoolData decodedMessage now = Some pd ->
     calculateSlope pd = None ->
     processPoolData decodedMessage now now' e =
       (Js.Ok (Some {| res_poolData := pd; res_slope := None;
                       res_deltaSlope := None; res_signal := None |}), e)) /\
  (forall pd, extractPoolData decodedMessage now = Some pd ->
     historyOf (slopeHistory e) (poolAddress pd) = [] ->
     exists r,
       fst (processPoolData decodedMessage now now' e) = Js.Ok (Some r) /\
       res_deltaSlope r = None /\ res_signal r = None).
Proof.
  split; [|split].
  - intros He. unfold processPoolData. rewrite He. reflexivity.
  - intros pd He Hs. unfold processPoolData. rewrite He, Hs. reflexivity.
  - intros pd He Hh. unfold processPoolData. rewrite He.
    destruct (calculateSlope pd) as [s|]; [|eexists; repeat split].
    rewrite (calculateDeltaSlope_nil _ _ _ Hh). simpl.
    eexists. repeat split.
Qed.

(** X19. On an engine that was never initialised, an observation of a
    pool that already has history throws a TypeError, but only after the
    history has been updated: the new record is there when the exception
    leaves. *)
Theorem processPoolData_uninitialised (decodedMessage : Msg.Decoded)
    (now now' : Z) (e : Engine) (pd : PoolData) (s : Q) :
  config e = None ->
  extractPoolData decodedMessage now = Some pd ->
  calculateSlope pd = Some s ->
  historyOf (slopeHistory e) (poolAddress pd) <> [] ->
  fst (processPoolData decodedMessage now now' e) = Js.Throw "TypeError" /\
  exists rec,
    last (historyOf (slopeHistory (snd (processPoolData decodedMessage now now' e)))
            (poolAddress pd)) = Some rec /\
    SlopeRecord.slope rec = s.
Proof.
  intros Hc He Hs Hh. unfold processPoolData. rewrite He, Hs.
  assert (exists d, calculateDeltaSlope (poolAddress pd) s (slopeHistory e)
                    = Some d) as [d Hd].
  { destruct (historyOf (slopeHistory e) (poolAddress pd)) as [|x h] eqn:E
      using rev_ind; [congruence|].
    rewrite (calculateDeltaSlope_snoc _ _ _ _ _ E). eauto. }
  rewrite Hd. simpl. rewrite Hc. simpl. split; [reflexivity|].
  rewrite historyOf_updateHistory_same, pushShift_last.
  eexists. split; reflexivity.
Qed.

(** X20. When [processPoolData] returns a resolved slope, the record it
    has appended to the pool's history carries that slope, the returned
    delta (0 where the returned delta is null), and the snapshot's
    timestamp, replaced by the clock when that timestamp is 0 or NaN; the
    histories of the other pools are untouched. *)
Theorem processPoolData_records (decodedMessage : Msg.Decoded) (now now' : Z)
    (e : Engine) (cfg : TradingConfig) (pd : PoolData) (s : Q) :
  config e = Some cfg ->
  extractPoolData decodedMessage now = Some pd ->
  calculateSlope pd = Some s ->
  let e' := snd (processPoolData decodedMessage now now' e) in
  exists r rec,
    fst (processPoolData decodedMessage now now' e) = Js.Ok (Some r) /\
    last (historyOf (slopeHistory e') (poolAddress pd)) = Some rec /\
    SlopeRecord.slope rec = s /\
    SlopeRecord.deltaSlope rec = default 0%Q (res_deltaSlope r) /\
    SlopeRecord.timestamp rec =
      (if Js.truthyN (timestamp pd) then timestamp pd else Js.Int now') /\
    (forall q, q <> poolAddress pd ->
       historyOf (slopeHistory e') q = historyOf (slopeHistory e) q).
Proof.
  intros Hc He Hs e'. subst e'.
  destruct (processPoolData_resolved _ now now' _ _ _ _ Hc He Hs)
    as [signal ->].
  simpl. eexists _, _. split; [reflexivity|].
  rewrite historyOf_updateHistory_same, pushShift_last.
  split; [reflexivity|]. split; [reflexivity|].
  split; [apply pushedRecord_deltaSlope|]. split.
  - simpl. unfold Js.or. destruct (Js.truthyN (timestamp pd)); reflexivity.
  - intros q Hq. apply historyOf_updateHistory_other. congruence.
Qed.

Lemma basisPointKeys_singleton (k : Z) (p : Q) :
  basisPointKeys {[k := p]} = [k].
Proof.
  unfold basisPointKeys. rewrite map_to_list_singleton. reflexivity.
Qed.

(** X21. Degenerate tables: with no price at all the slope is null, and
    with a single priced bucket, whatever its basis points, both reference
    prices resolve to that bucket and the slope is 0. *)
Theorem calculateSlope_degenerate (pd : PoolData) :
  (prices pd = None \/ prices pd = Some ∅ -> calculateSlope pd = None) /\
  (forall k p, prices pd = Some {[k := p]} -> ~ (p == 0)%Q ->
     exists v, calculateSlope pd = Some v /\ (v == 0)%Q).
Proof.
  split.
  - intros [H|H]; rewrite calculateSlope_searched, H; reflexivity.
  - intros k p H Hp. rewrite calculateSlope_searched, H. simpl.
    assert (forall ref, searched {[k := p]} ref = Some p) as Hs.
    { intros ref. unfold searched. rewrite basisPointKeys_singleton. simpl.
      destruct (decide (k = ref)) as [->|Hne].
      - rewrite lookup_singleton_eq. simpl.
        apply truthyQ_true in Hp. rewrite Hp. reflexivity.
      - rewrite lookup_singleton_ne by exact Hne. simpl.
        apply lookup_singleton_eq. }
    rewrite !Hs.
    pose proof Hp as Ht. apply truthyQ_true in Ht. rewrite Ht. simpl.
    unfold Js.truthyQ in Ht. apply negb_true_iff in Ht. rewrite Ht.
    eexists. split; [reflexivity|]. field. exact Hp.
Qed.

(** ** Message handling *)

Lemma extractPoolData_poolAddress_nonempty decodedMessage now pd :
  extractPoolData decodedMessage now = Some pd -> poolAddress pd <> "".
Proof.
  unfold extractPoolData.
  destruct (negb (isSupportedToken _) || negb (isSupportedToken _));
    [discriminate|].
  destruct (String.eqb _ _ && String.eqb _ _);
    [|destruct (String.eqb _ _ && String.eqb _ _)];
    intros [= <-]; simpl; apply or_truthyS_nonempty; discriminate.
Qed.

(** X22. [handleMessage] counts every message, and never touches the
    ledger for a message that fails to decode, is filtered out, has no
    resolvable slope, or is the first observation of its pool; in the
    first three cases the engine is unchanged as well. *)
Theorem handleMessage_quiet (Buffer : Type)
    (decodeMessage : Buffer -> Js.result Msg.Decoded)
    (appConfig : TradingConfig) (value : Buffer) (now now' : Z)
    (clock : nat -> Z) (a : App) :
  let a' := handleMessage Buffer decodeMessage appConfig value now now' clock a in
  messageCount a' = messageCount a + 1 /\
  (forall msg, decodeMessage value = Js.Throw msg ->
     engine a' = engine a /\ ledger a' = ledger a) /\
  (forall dm, decodeMessage value = Js.Ok dm ->
     extractPoolData dm now = None ->
     engine a' = engine a /\ ledger a' = ledger a) /\
  (forall dm pd, decodeMessage value = Js.Ok dm ->
     extractPoolData dm now = Some pd -> calculateSlope pd = None ->
     engine a' = engine a /\ ledger a' = ledger a) /\
  (forall dm pd, decodeMessage value = Js.Ok dm ->
     extractPoolData dm now = Some pd ->
     historyOf (slopeHistory (engine a)) (poolAddress pd) = [] ->
     ledger a' = ledger a).
Proof.
  intros a'. subst a'. unfold handleMessage.
  split; [|split; [|split; [|split]]].
  - destruct (decodeMessage value) as [dm|msg]; [|reflexivity].
    destruct (processPoolData dm now now' (engine a)) as [[[r|]|msg] e'];
      try reflexivity.
    destruct (res_signal r); reflexivity.
  - intros msg ->. split; reflexivity.
  - intros dm -> He. unfold processPoolData. rewrite He. split; reflexivity.
  - intros dm pd -> He Hs. unfold processPoolData. rewrite He, Hs.
    split; reflexivity.
  - intros dm pd -> He Hh. unfold processPoolData. rewrite He.
    destruct (calculateSlope pd) as [s|]; [|reflexivity].
    rewrite (calculateDeltaSlope_nil _ _ _ Hh). reflexivity.
Qed.

(** X23. End to end under strategy A: a message whose slope lies below
    the threshold and below the last recorded slope of its pool, and whose
    price at threshold A resolves, opens one trade of the configured trade
    size at that price, tagged with the pool address of the snapshot, and
    makes it the open position. *)
Theorem handleMessage_buys (Buffer : Type)
    (decodeMessage : Buffer -> Js.result Msg.Decoded)
    (cfg : TradingConfig) (value : Buffer) (now now' : Z)
    (clock : nat -> Z) (a : App) (dm : Msg.Decoded) (pd : PoolData)
    (s p : Q) (h : list SlopeRecord.t) (r : SlopeRecord.t) :
  decodeMessage value = Js.Ok dm ->
  extractPoolData dm now = Some pd ->
  calculateSlope pd = Some s ->
  historyOf (slopeHistory (engine a)) (poolAddress pd) = h ++ [r] ->
  (s < SlopeRecord.slope r)%Q ->
  (s < slopeThreshold cfg)%Q ->
  config (engine a) = Some cfg ->
  strategy cfg = StrategyA ->
  getExecutionPrice pd (tradeSize cfg) (slippageThresholdA cfg) BUY = Some p ->
  let a' := handleMessage Buffer decodeMessage cfg value now now' clock a in
  let ref := length (heap (ledger a)) in
  openPosition (ledger a') = Some ref /\
  trades (ledger a') = trades (ledger a) ++ [ref] /\
  exists t,
    heap (ledger a') = heap (ledger a) ++ [t] /\
    Trade.type t = BUY /\
    Trade.amount t = tradeSize cfg /\
    Trade.entryPrice t = p /\
    Trade.exitPrice t = None /\
    Trade.poolAddress t = poolAddress pd.
Proof.
  intros Hd He Hs Hh Hlt Hth Hc Hst Hp a' ref. subst a'.
  unfold handleMessage. rewrite Hd.
  unfold processPoolData. rewrite He, Hs.
  rewrite (calculateDeltaSlope_snoc _ _ _ _ _ Hh). simpl. rewrite Hc. simpl.
  assert (Js.Qltb (s - SlopeRecord.slope r) 0 = true) as ->
    by (apply Qltb_lt; lra).
  assert (Js.Qltb s (slopeThreshold cfg) = true) as ->
    by (apply Qltb_lt; exact Hth).
  simpl. unfold executeStrategy, getSlippageThreshold. simpl.
  rewrite ?Hc, Hst. simpl.
  unfold executeBuy. rewrite Hp.
  pose proof (getExecutionPrice_nonzero _ _ _ _ _ Hp) as Hz.
  apply truthyQ_true in Hz. rewrite Hz. simpl.
  split; [reflexivity|]. split; [reflexivity|].
  eexists. split; [reflexivity|]. simpl.
  repeat (split; [reflexivity|]).
  pose proof (extractPoolData_poolAddress_nonempty _ _ _ He) as Hne.
  assert (Js.truthyS (poolAddress pd) = true) as Ht.
  { unfold Js.truthyS. apply negb_true_iff, String.eqb_neq. exact Hne. }
  rewrite Ht. simpl. rewrite Ht. reflexivity.
Qed.

(** ** Trade ids *)

Lemma pretty_N_go_dashFree (x : N) : forall s,
  dashFree s = true -> dashFree (pretty_N_go x s) = true.
Proof.
  induction (N.lt_wf_0 x) as [x _ IH]; intros s Hs.
  assert (x = 0 \/ 0 < x)%N as [->|Hpos] by lia.
  - rewrite pretty_N_go_0. exact Hs.
  - rewrite pretty_N_go_step by exact Hpos. apply IH.
    + by apply N.div_lt.
    + simpl. rewrite Hs. rewrite andb_true_r.
      unfold pretty_N_char. by repeat case_match.
Qed.

Lemma pretty_counter_dashFree (c : Z) : 0 < c -> dashFree (pretty c) = true.
Proof.
  destruct c as [|x|x]; try lia. intros _.
  unfold pretty, pretty_Z, pretty, pretty_positive, pretty, pretty_N.
  destruct (decide (N.pos x = 0%N)) as [E|_]; [discriminate E|].
  by apply pretty_N_go_dashFree.
Qed.

Lemma dashFree_head (c : ascii) (s : string) :
  dashFree (String c s) = true -> c <> "-"%char.
Proof.
  simpl. intros H Hc. subst c. discriminate H.
Qed.

Lemma dashFree_app_dash (s d : string) :
  dashFree (s +:+ String "-" d) = false.
Proof.
  induction s as [|c s IH]; [reflexivity|].
  change (dashFree (String c (s +:+ String "-" d)) = false).
  simpl. rewrite IH. apply andb_false_r.
Qed.

(** What follows the last [-] of a string determines itself. *)
Lemma after_last_dash (s1 : string) : forall (s2 d1 d2 : string),
  dashFree d1 = true -> dashFree d2 = true ->
  s1 +:+ String "-" d1 = s2 +:+ String "-" d2 -> d1 = d2.
Proof.
  induction s1 as [|c1 s1 IH]; intros s2 d1 d2 H1 H2 E.
  - destruct s2 as [|c2 s2].
    + by injection E.
    + change (String "-" d1 = String c2 (s2 +:+ String "-" d2)) in E.
      injection E as _ E. rewrite E, dashFree_app_dash in H1. discriminate H1.
  - destruct s2 as [|c2 s2].
    + change (String c1 (s1 +:+ String "-" d1) = String "-" d2) in E.
      injection E as _ E. rewrite <- E, dashFree_app_dash in H2.
      discriminate H2.
    + change (String c1 (s1 +:+ String "-" d1)
              = String c2 (s2 +:+ String "-" d2)) in E.
      injection E as _ E. by apply (IH s2).
Qed.

Lemma tradeId_counter (now now' c c' : Z) :
  0 < c -> 0 < c' -> tradeId now c = tradeId now' c' -> c = c'.
Proof.
  intros Hc Hc' E. unfold tradeId in E. simpl in E.
  injection E as E.
  apply after_last_dash in E; try by apply pretty_counter_dashFree.
  by apply (inj pretty) in E.
Qed.

Lemma idsIndexed_step L op :
  wellFormed L -> idsIndexed L -> idsIndexed (step L op).
Proof.
  intros (Hc & _ & _ & _) Hid.
  destruct op as [pd a s st n n'|pd a s st n n'|]; simpl.
  - unfold executeBuy.
    destruct (getExecutionPrice pd a s BUY) as [p|]; [|exact Hid].
    destruct (negb (Js.truthyQ p)); [exact Hid|].
    unfold idsIndexed. simpl. intros i ref Hi.
    destruct (decide (i < length (trades L))%nat) as [Hlt|Hge].
    + rewrite lookup_app_l in Hi by exact Hlt.
      destruct (Hid i ref Hi) as (t & now & Ht & Hidt).
      exists t, now. split; [|exact Hidt].
      rewrite lookup_app_l by (by eapply lookup_lt_Some). exact Ht.
    + rewrite lookup_app_r in Hi by lia.
      destruct (i - length (trades L))%nat as [|k] eqn:Ek; [|discriminate Hi].
      injection Hi as <-.
      eexists _, n. split; [apply list_lookup_middle; reflexivity|].
      simpl. unfold tradeId. rewrite Hc.
      replace i with (length (trades L)) by lia. reflexivity.
  - unfold executeSell.
    destruct (openPosition L) as [ref0|]; [|exact Hid].
    destruct (getExecutionPrice pd a s SELL) as [p|]; [|exact Hid].
    destruct (negb (Js.truthyQ p)); [exact Hid|].
    destruct (heap L !! ref0) as [t0|] eqn:E0; [|exact Hid].
    unfold idsIndexed. simpl.
    intros i ref Hi. destruct (Hid i ref Hi) as (t & now & Ht & Hidt).
    destruct (decide (ref = ref0)) as [->|Hne].
    + exists (closeTrade p n t0), now. split.
      * apply list_lookup_insert_eq. by eapply lookup_lt_Some.
      * rewrite E0 in Ht. injection Ht as ->. exact Hidt.
    + exists t, now. split; [|exact Hidt].
      rewrite list_lookup_insert_ne by congruence. exact Ht.
  - intros i ref Hi. discriminate Hi.
Qed.

Lemma idsIndexed_run (ops : list Op) : idsIndexed (run ops).
Proof.
  unfold run.
  assert (forall L, wellFormed L -> idsIndexed L ->
            idsIndexed (fold_left step ops L)) as H.
  { induction ops as [|op ops IH]; intros L Hw Hi; [exact Hi|].
    simpl. apply IH; [by apply wellFormed_step|by apply idsIndexed_step]. }
  apply H; [apply wellFormed_initial|].
  intros i ref Hi. discriminate Hi.
Qed.

Lemma omap_lookup_indexed (hp : list Trade.t) (refs : list nat) :
  forall (k : nat),
  (forall i ref, refs !! i = Some ref ->
     exists t now, hp !! ref = Some t /\
                   Trade.id t = tradeId now (Z.of_nat (k + i) + 1)) ->
  forall j t, omap (fun ref => hp !! ref) refs !! j = Some t ->
    exists now, Trade.id t = tradeId now (Z.of_nat (k + j) + 1).
Proof.
  induction refs as [|ref refs IH]; intros k H j t Hj; [discriminate Hj|].
  destruct (H 0%nat ref eq_refl) as (t0 & now0 & Ht0 & Hid0).
  change (omap ?f (ref :: refs)) with
    (match f ref with Some y => y :: omap f refs | None => omap f refs end)
    in Hj.
  cbv beta in Hj. rewrite Ht0 in Hj.
  destruct j as [|j].
  - injection Hj as <-. eauto.
  - simpl in Hj.
    destruct (IH (S k)) with (j := j) (t := t) as [now Hnow]; [|exact Hj|].
    + intros i r Hi. destruct (H (S i) r Hi) as (t' & now' & Ht' & Hid').
      exists t', now'. split; [exact Ht'|].
      replace (S k + i)%nat with (k + S i)%nat by lia. exact Hid'.
    + exists now. replace (k + S j)%nat with (S k + j)%nat by lia. exact Hnow.
Qed.

(** X24. The ids of the trades recorded in a reachable ledger are
    pairwise distinct: the i-th recorded trade carries the counter value
    i + 1 at the end of its id, whatever the clock read. *)
Theorem trade_ids_unique (ops : list Op) :
  let L := run ops in
  NoDup (map Trade.id (ledgerTrades L)) /\
  (forall i t, ledgerTrades L !! i = Some t ->
     exists now, Trade.id t = tradeId now (Z.of_nat i + 1)).
Proof.
  intros L.
  assert (forall i t, ledgerTrades L !! i = Some t ->
            exists now, Trade.id t = tradeId now (Z.of_nat i + 1)) as Hidx.
  { intros i t Hi.
    apply (omap_lookup_indexed (heap L) (trades L) 0%nat); [|exact Hi].
    apply (idsIndexed_run ops). }
  split; [|exact Hidx].
  apply NoDup_alt. intros i j x Hi Hj.
  rewrite list_lookup_fmap in Hi, Hj.
  destruct (ledgerTrades L !! i) as [ti|] eqn:Ei; [|discriminate Hi].
  destruct (ledgerTrades L !! j) as [tj|] eqn:Ej; [|discriminate Hj].
  simpl in Hi, Hj. injection Hi as Hi. injection Hj as Hj.
  destruct (Hidx i ti Ei) as [ni Hni]. destruct (Hidx j tj Ej) as [nj Hnj].
  rewrite Hni in Hi. rewrite Hnj in Hj. rewrite <- Hj in Hi.
  apply tradeId_counter in Hi; lia.
Qed.

(** ** Reset *)

Lemma shifted_step junk L L' op :
  shifted junk L L' -> shifted junk (step L op) (step L' op).
Proof.
  intros HS. pose proof HS as (Hh & Ht & Ho & Hc).
  destruct op as [pd a s st n n'|pd a s st n n'|]; simpl.
  - unfold executeBuy.
    destruct (getExecutionPrice pd a s BUY) as [p|]; [|exact HS].
    destruct (negb (Js.truthyQ p)); [exact HS|]. simpl.
    unfold shifted. simpl. rewrite Hh, Ht, Hc.
    rewrite length_app, map_app, <- app_assoc. simpl.
    repeat split.
  - unfold executeSell. rewrite Ho.
    destruct (openPosition L') as [ref|] eqn:Eo; simpl; [|exact HS].
    destruct (getExecutionPrice pd a s SELL) as [p|]; [|exact HS].
    destruct (negb (Js.truthyQ p)); [exact HS|].
    rewrite Hh. rewrite lookup_app_r by lia.
    replace (length junk + ref - length junk)%nat with ref by lia.
    destruct (heap L' !! ref) as [t|]; [|exact HS].
    unfold shifted. simpl. rewrite insert_app_r. rewrite Ht, Hc.
    repeat split.
  - unfold shifted. simpl. rewrite Hh. repeat split.
Qed.

Lemma shifted_fold junk ops : forall L L',
  shifted junk L L' -> shifted junk (fold_left step ops L) (fold_left step ops L').
Proof.
  induction ops as [|op ops IH]; intros L L' H; [exact H|].
  simpl. apply IH. by apply shifted_step.
Qed.

Lemma shifted_ledgerTrades junk L L' :
  shifted junk L L' ->
  ledgerTrades L = ledgerTrades L' /\ openTrade L = openTrade L'.
Proof.
  intros (Hh & Ht & Ho & _). unfold ledgerTrades, openTrade.
  rewrite Hh, Ht, Ho. clear Ht Ho. split.
  - induction (trades L') as [|ref refs IH]; [reflexivity|].
    simpl. rewrite lookup_app_r by lia.
    replace (length junk + ref - length junk)%nat with ref by lia.
    destruct (heap L' !! ref); [f_equal|]; exact IH.
  - destruct (openPosition L') as [ref|]; [|reflexivity]. simpl.
    rewrite lookup_app_r by lia. f_equal. lia.
Qed.

(** X25. After [resetTrades] the ledger behaves like a fresh one: under
    any later sequence of operations it records the same trades, holds the
    same open trade, counts the same and reports the same summary figures
    as the initial ledger would, whatever it held before. *)
Theorem resetTrades_fresh (L : Ledger) (ops : list Op) :
  let A := fold_left step ops (resetTrades L) in
  let B := run ops in
  ledgerTrades A = ledgerTrades B /\
  openTrade A = openTrade B /\
  tradeCounter A = tradeCounter B /\
  Summary.totalTrades (getPerformanceSummary A)
    = Summary.totalTrades (getPerformanceSummary B) /\
  Summary.closedTrades (getPerformanceSummary A)
    = Summary.closedTrades (getPerformanceSummary B) /\
  Summary.openPosition (getPerformanceSummary A)
    = Summary.openPosition (getPerformanceSummary B) /\
  Summary.totalPnL (getPerformanceSummary A)
    = Summary.totalPnL (getPerformanceSummary B) /\
  Summary.winRate (getPerformanceSummary A)
    = Summary.winRate (getPerformanceSummary B) /\
  Summary.averageExecutionPrice (getPerformanceSummary A)
    = Summary.averageExecutionPrice (getPerformanceSummary B).
Proof.
  intros A B.
  assert (shifted (heap L) (resetTrades L) initialLedger) as H0.
  { unfold shifted. simpl. rewrite app_nil_r. repeat split. }
  pose proof (shifted_fold (heap L) ops _ _ H0) as H.
  fold A in H. fold (run ops) in H. fold B in H.
  destruct (shifted_ledgerTrades _ _ _ H) as [Hl Ho].
  destruct H as (_ & Ht & Hop & Hc).
  split; [exact Hl|]. split; [exact Ho|]. split; [exact Hc|].
  unfold getPerformanceSummary. simpl. rewrite Hl, Ht, Hop, length_map.
  repeat split. by destruct (openPosition B).
Qed.

(** X26. On a reachable ledger with an open position and a price that
    resolves, [executeSell] never fails: it closes that trade in place and
    touches no other one, keeps [trades] as it is, and returns a copy whose
    PnL is (price - entryPrice) * amount of the trade, whatever amount the
    caller passed. *)
Theorem executeSell_closes_open (ops : list Op) (pd : PoolData) (a s : Q)
    (st : Strategy) (n n' : Z) (ref : nat) (p : Q) :
  let L := run ops in
  openPosition L = Some ref ->
  getExecutionPrice pd a s SELL = Some p ->
  exists t t',
    heap L !! ref = Some t /\
    executeSell pd a s st n n' L =
      (Js.Ok (Some t'),
       {| heap := <[ref := closeTrade p n t]> (heap L);
          trades := trades L;
          openPosition := None;
          tradeCounter := tradeCounter L |}) /\
    Trade.id t' = Trade.id t /\
    Trade.exitPrice t' = Some p /\
    calculatePnL t' = ((p - Trade.entryPrice t) * Trade.amount t)%Q /\
    (forall ref', ref' <> ref ->
       <[ref := closeTrade p n t]> (heap L) !! ref' = heap L !! ref').
Proof.
  intros L Ho Hp.
  destruct (wellFormed_fold ops initialLedger wellFormed_initial)
    as (_ & _ & Hs & Hopen).
  fold (run ops) in Hs, Hopen. fold L in Hs, Hopen.
  destruct (Hopen ref Ho) as (Hin & t & Ht & Hx).
  destruct (Hs ref Hin) as (t1 & Ht1 & Hty & _).
  rewrite Ht in Ht1. injection Ht1 as <-.
  pose proof (getExecutionPrice_nonzero _ _ _ _ _ Hp) as Hz.
  apply truthyQ_true in Hz.
  exists t, (closeTrade p n' (closeTrade p n t)).
  split; [exact Ht|]. split.
  { unfold executeSell. rewrite Ho, Hp, Hz, Ht. reflexivity. }
  split; [reflexivity|]. split; [reflexivity|]. split.
  - unfold calculatePnL. simpl. rewrite Hz, Hty. reflexivity.
  - intros ref' Hne. by apply list_lookup_insert_ne.
Qed.

(** ** The further properties at concrete inputs *)

Lemma ledger_wellFormed_witness :
  Trade.type <$> ledgerTrades (run someOps) !! 0%nat = Some BUY.
Proof.
  destruct (ledgerTrades (run someOps) !! 0%nat) as [t|] eqn:E;
    [|discriminate E].
  simpl. f_equal.
  apply (proj2 (proj2 (proj2 (ledger_wellFormed someOps))) t).
  apply list_elem_of_lookup. eauto.
Defined.

Lemma trade_outside_slot_frozen_witness :
  heap (fold_left step
          [ OpSell (snapshot [bucket 100 105]) 1 (1 # 100) StrategyA 5 6;
            OpReset ] twoBuys) !! 0%nat
  = heap twoBuys !! 0%nat.
Proof.
  destruct (heap twoBuys !! 0%nat) as [t|] eqn:E; [|discriminate E].
  apply (trade_outside_slot_frozen _ twoBuys 0%nat t E).
  discriminate.
Defined.

Lemma replaced_open_trade_never_closed_witness :
  exists t,
    heap (fold_left step
            [ OpSell (snapshot [bucket 100 105]) 1 (1 # 100) StrategyA 5 6 ]
            twoBuys) !! 0%nat = Some t /\
    Trade.exitPrice t = None.
Proof.
  destruct (replaced_open_trade_never_closed initialLedger
              (snapshot [bucket 100 100]) otherPool 1 (1 # 100) 1 (1 # 100)
              StrategyA StrategyA 1 2 3 4 100%Q 102%Q
              [ OpSell (snapshot [bucket 100 105]) 1 (1 # 100) StrategyA 5 6 ]
              eq_refl ltac:(discriminate) eq_refl ltac:(discriminate))
    as (_ & t & Ht & _ & _ & Hx & _).
  exists t. split; [exact Ht|exact Hx].
Defined.

Lemma executeSell_twice_witness :
  executeSell otherPool 1 (1 # 100) StrategyA 5 6
    (snd (executeSell (snapshot [bucket 100 105]) 1 (1 # 100) StrategyA 3 4
            ledgerWithOpen))
  = (Js.Ok None,
     snd (executeSell (snapshot [bucket 100 105]) 1 (1 # 100) StrategyA 3 4
            ledgerWithOpen)).
Proof.
  eapply executeSell_twice. reflexivity.
Defined.

Lemma getPerformanceSummary_bounds_witness :
  Summary.winRate (getPerformanceSummary initialLedger) = 0%Q.
Proof.
  apply (proj2 (proj2 (proj2 (getPerformanceSummary_bounds initialLedger)))).
  reflexivity.
Defined.

Lemma buy_then_sell_realises_witness :
  Summary.closedTrades
    (getPerformanceSummary
       (snd (executeSell (snapshot [bucket 100 105]) 7 (1 # 100) StrategyA 3 4
               (snd (executeBuy (snapshot [bucket 100 100]) 2 (1 # 100)
                       StrategyA 1 2 (run someOps))))))
  = S (Summary.closedTrades (getPerformanceSummary (run someOps))).
Proof.
  destruct (buy_then_sell_realises someOps (snapshot [bucket 100 100])
              (snapshot [bucket 100 105]) 2 (1 # 100) 7 (1 # 100)
              StrategyA StrategyA 1 2 3 4 100%Q 105%Q
              eq_refl ltac:(discriminate) eq_refl ltac:(discriminate))
    as (t & tc & _ & _ & _ & _ & _ & H & _).
  exact H.
Defined.

Lemma executeBuy_iff_price_witness :
  fst (executeBuy (snapshot [bucket 100 100]) 1 (1 # 100) StrategyA 1 2
         initialLedger) = Js.Ok 0%nat.
Proof.
  apply (proj1 (proj2 (proj2 (executeBuy_iff_price
                                (snapshot [bucket 100 100]) 1 (1 # 100)
                                StrategyA 1 2 initialLedger))) 100%Q).
  reflexivity.
Defined.

Lemma strategyB_sell_is_single_sell_witness :
  executeStrategy configB SELL (snapshot [bucket 50 105]) None None clock0
    engineB ledgerWithOpen
  = (Js.Ok tt,
     snd (executeSell (snapshot [bucket 50 105]) (1 / 2) (5 # 1000) StrategyB
            (clock0 0%nat) (clock0 1%nat) ledgerWithOpen)).
Proof.
  apply (strategyB_sell_is_single_sell configB configB); reflexivity.
Defined.

Lemma strategyB_buy_two_chunks_witness :
  length (trades (snd (executeStrategy configB BUY (snapshot [bucket 50 100])
                         None None clock0 engineB initialLedger))) = 2%nat.
Proof.
  destruct (strategyB_buy_two_chunks configB configB (snapshot [bucket 50 100])
              None None clock0 engineB initialLedger eq_refl eq_refl)
    as (_ & _ & H).
  destruct (H 100%Q eq_refl) as (t1 & t2 & _ & Ht & _).
  rewrite Ht. reflexivity.
Defined.

Lemma executeStrategy_errors_witness :
  executeStrategy configB BUY (snapshot [bucket 50 100]) None None clock0
    initialEngine initialLedger = (Js.Throw "TypeError", initialLedger) /\
  snd (executeStrategy configB BUY (snapshot []) None None clock0
         engineB ledgerWithOpen) = ledgerWithOpen.
Proof.
  split.
  - apply (proj1 (executeStrategy_errors configB BUY (snapshot [bucket 50 100])
                    None None clock0 initialEngine initialLedger)).
    reflexivity.
  - apply (proj2 (executeStrategy_errors configB BUY (snapshot [])
                    None None clock0 engineB ledgerWithOpen) configB eq_refl).
    reflexivity.
Defined.

Lemma strategyB_round_trip_leaves_half_open_witness :
  exists t1 t2,
    heap (snd (executeStrategy configB SELL (snapshot [bucket 50 105])
                 None None clock0 engineB
                 (snd (executeStrategy configB BUY (snapshot [bucket 50 100])
                         None None clock0 engineB initialLedger))))
    = [t1; t2] /\
    Trade.exitPrice t1 = None /\ Trade.exitPrice t2 = Some 105%Q.
Proof.
  destruct (strategyB_round_trip_leaves_half_open configB configB
              (snapshot [bucket 50 100]) (snapshot [bucket 50 105])
              None None None None clock0 clock0 engineB initialLedger
              100%Q 105%Q [] eq_refl eq_refl eq_refl eq_refl)
    as (t1 & t2 & Hh & _ & _ & _ & Hx1 & _ & Hx2 & _).
  exists t1, t2. split; [exact Hh|]. split; [exact Hx1|exact Hx2].
Defined.

Lemma isSupportedToken_spec_witness :
  isSupportedToken "0xDAC17F958D2EE523A2206206994597C13D831EC7" = true.
Proof.
  apply (proj1 (isSupportedToken_spec _)). left. reflexivity.
Defined.

Lemma extractPoolData_snapshot_witness :
  exists pd,
    extractPoolData (observation 99) 1 = Some pd /\
    poolAddress pd <> "" /\
    slippageBuckets pd = Some (atoBOf (observation 99)).
Proof.
  destruct (extractPoolData (observation 99) 1) as [pd|] eqn:E;
    [|discriminate E].
  exists pd. split; [reflexivity|].
  destruct (extractPoolData_snapshot (observation 99) 1 pd E)
    as (_ & _ & Hp & _ & _ & _ & Hb & _).
  split; [exact Hp|]. rewrite Hb.
  vm_compute in E. injection E as <-. reflexivity.
Defined.

Lemma buildPrices_lookup_witness :
  buildPrices [bucket 10 100; bucket 100 99] !! 20 = None.
Proof.
  apply (proj2 (proj2 (buildPrices_lookup [bucket 10 100; bucket 100 99] 20))).
  intros b Hb Hk.
  apply elem_of_cons in Hb as [->|Hb]; [discriminate Hk|].
  apply list_elem_of_singleton in Hb. subst b. discriminate Hk.
Defined.

Lemma getExecutionPrice_agrees_with_prices_witness :
  exists pd,
    extractPoolData (observation 99) 1 = Some pd /\
    getExecutionPrice pd 1 (1 # 100) BUY
    = Js.orObj (prices pd) ∅ !! Math_round ((1 # 100) * 10000).
Proof.
  eexists. split; [reflexivity|].
  eapply (getExecutionPrice_agrees_with_prices (observation 99) 1 _
            [bucket 10 100; bucket 100 99] (bucket 100 99)).
  - reflexivity.
  - reflexivity.
  - apply NoDup_cons. split.
    + intros H. apply list_elem_of_singleton in H. discriminate H.
    + apply NoDup_singleton.
  - apply elem_of_cons. right. apply list_elem_of_singleton. reflexivity.
  - reflexivity.
Defined.

Lemma calculateSlope_of_execution_prices_witness :
  exists pd,
    extractPoolData (observation 99) 1 = Some pd /\
    calculateSlope pd = Some ((99 - 100) / 100)%Q.
Proof.
  eexists. split; [reflexivity|].
  eapply (calculateSlope_of_execution_prices (observation 99) 1 _
            [bucket 10 100; bucket 100 99] (bucket 10 100) (bucket 100 99)
            1 1 BUY SELL).
  - reflexivity.
  - reflexivity.
  - apply NoDup_cons. split.
    + intros H. apply list_elem_of_singleton in H. discriminate H.
    + apply NoDup_singleton.
  - apply elem_of_cons. left. reflexivity.
  - reflexivity.
  - apply elem_of_cons. right. apply list_elem_of_singleton. reflexivity.
  - reflexivity.
  - reflexivity.
  - reflexivity.
Defined.

Lemma processPoolData_quiet_witness :
  exists r,
    fst (processPoolData (observation 99) 1 2 initialEngine) = Js.Ok (Some r) /\
    res_deltaSlope r = None /\ res_signal r = None.
Proof.
  destruct (extractPoolData (observation 99) 1) as [pd|] eqn:E;
    [|discriminate E].
  apply (proj2 (proj2 (processPoolData_quiet (observation 99) 1 2
                         initialEngine)) pd E).
  reflexivity.
Defined.

Lemma processPoolData_uninitialised_witness :
  fst (processPoolData (observation 98) 3 4 engineSeen) = Js.Throw "TypeError".
Proof.
  destruct (extractPoolData (observation 98) 3) as [pd|] eqn:E;
    [|discriminate E].
  destruct (calculateSlope pd) as [s|] eqn:Es.
  - apply (processPoolData_uninitialised (observation 98) 3 4 engineSeen pd s
             eq_refl E Es).
    vm_compute in E. injection E as <-. discriminate.
  - vm_compute in E. injection E as <-. discriminate Es.
Defined.

Lemma processPoolData_records_witness :
  exists r rec,
    fst (processPoolData (observation 99) 1 2
           (initializeStrategy defaultConfig initialEngine)) = Js.Ok (Some r) /\
    last (historyOf
            (slopeHistory
               (snd (processPoolData (observation 99) 1 2
                       (initializeStrategy defaultConfig initialEngine))))
            "0xpool") = Some rec /\
    SlopeRecord.slope rec = ((99 - 100) / 100)%Q.
Proof.
  destruct (extractPoolData (observation 99) 1) as [pd|] eqn:E;
    [|discriminate E].
  destruct (calculateSlope pd) as [s|] eqn:Es.
  - destruct (processPoolData_records (observation 99) 1 2
                (initializeStrategy defaultConfig initialEngine) defaultConfig
                pd s eq_refl E Es)
      as (r & rec & Hr & Hl & Hs & _).
    vm_compute in E. injection E as <-.
    vm_compute in Es. injection Es as <-.
    exists r, rec. split; [exact Hr|]. split; [exact Hl|exact Hs].
  - vm_compute in E. injection E as <-. discriminate Es.
Defined.

Lemma calculateSlope_degenerate_witness :
  exists v, calculateSlope (mkPrices [(50, 7%Q)]) = Some v /\ (v == 0)%Q.
Proof.
  apply (proj2 (calculateSlope_degenerate (mkPrices [(50, 7%Q)])) 50 7%Q).
  - reflexivity.
  - discriminate.
Defined.

Lemma handleMessage_quiet_witness :
  ledger (handleMessage Msg.Decoded decodeId defaultConfig (observation 99)
            1 2 clock0 freshApp) = initialLedger.
Proof.
  destruct (extractPoolData (observation 99) 1) as [pd|] eqn:E;
    [|discriminate E].
  apply (proj2 (proj2 (proj2 (proj2
           (handleMessage_quiet Msg.Decoded decodeId defaultConfig
              (observation 99) 1 2 clock0 freshApp)))) (observation 99) pd
           eq_refl E).
  vm_compute in E. injection E as <-. reflexivity.
Defined.

Lemma handleMessage_buys_witness :
  openPosition
    (ledger (handleMessage Msg.Decoded decodeId defaultConfig (observation 98)
               3 4 clock0 seenApp)) = Some 0%nat.
Proof.
  destruct (extractPoolData (observation 98) 3) as [pd|] eqn:E;
    [|discriminate E].
  pose proof E as E'. vm_compute in E'. injection E' as Hpd.
  apply (handleMessage_buys Msg.Decoded decodeId defaultConfig (observation 98)
           3 4 clock0 seenApp (observation 98) pd ((98 - 100) / 100)%Q 98%Q []
           {| SlopeRecord.timestamp := Js.Int 1700000000000;
              SlopeRecord.slope := ((99 - 100) / 100)%Q;
              SlopeRecord.deltaSlope := 0%Q |}
           eq_refl E);
    subst pd; reflexivity.
Defined.

Lemma trade_ids_unique_witness :
  exists now,
    Trade.id <$> ledgerTrades (run someOps) !! 0%nat = Some (tradeId now 1).
Proof.
  destruct (ledgerTrades (run someOps) !! 0%nat) as [t|] eqn:E;
    [|discriminate E].
  destruct (proj2 (trade_ids_unique someOps) 0%nat t E) as [now H].
  exists now. simpl. f_equal. exact H.
Defined.

Lemma executeSell_closes_open_witness :
  exists t',
    fst (executeSell (snapshot [bucket 100 105]) 9 (1 # 100) StrategyA 3 4
           (run [OpBuy (snapshot [bucket 100 100]) 2 (1 # 100) StrategyA 1 2]))
    = Js.Ok (Some t') /\
    calculatePnL t' = ((105 - 100) * 2)%Q.
Proof.
  destruct (executeSell_closes_open
              [OpBuy (snapshot [bucket 100 100]) 2 (1 # 100) StrategyA 1 2]
              (snapshot [bucket 100 105]) 9 (1 # 100) StrategyA 3 4 0%nat 105%Q
              eq_refl eq_refl)
    as (t & t' & Ht & E & _ & _ & Hp & _).
  exists t'. split; [rewrite E; reflexivity|].
  rewrite Hp. vm_compute in Ht. injection Ht as <-. reflexivity.
Defined.
